(** * removeAnnotations.py: a shallow embedding and its properties

    The script strips nullability annotations (and, on request,
    [@SuppressWarnings(...)]) from every [.java] file below a directory.
    This development embeds

    - the part of Python's [re] engine that the seven patterns of the
      script exercise (literals, the [\b] assertion and the greedy
      repeat of a negated literal), with [re.sub] as a left-to-right
      scan for non-overlapping matches;
    - text-mode file access under the [us-ascii] codec, over a store of
      byte strings indexed by path;
    - [remove_annotations], [process_directory] and the [__main__]
      block, as computations over an explicit world (store, write log,
      standard output, module-level counters) that either return or
      raise. *)

From Stdlib Require Import Ascii String List Bool Arith Lia NArith.
From Stdlib.Strings Require Import Byte.
From Stdlib Require Import DecimalString.
From stdpp Require Import gmap strings.
Import ListNotations.

Local Open Scope list_scope.

(** ** Text *)

(** A decoded [str] is a sequence of characters.  Every text the script
    ever holds comes out of the [us-ascii] codec, so its characters are
    below 128. *)
Abbreviation text := (list ascii).

Definition T (s : string) : text := list_ascii_of_string s.

(** [\w] on the ASCII range: letters, digits and the underscore. *)
Definition is_word (c : ascii) : bool :=
  let n := nat_of_ascii c in
  ((65 <=? n) && (n <=? 90)) || ((97 <=? n) && (n <=? 122))
  || ((48 <=? n) && (n <=? 57)) || (n =? 95).

Definition is_word_opt (o : option ascii) : bool :=
  match o with Some c => is_word c | None => false end.

(** ** The regular-expression engine *)

Module Re.

(** The nodes [sre_parse] produces for the script's patterns:
    [LITERAL c], [AT AT_BOUNDARY] for [\b], and
    [MAX_REPEAT 0 MAXREPEAT [NOT_LITERAL c]] for [[^c]*]. *)
Inductive node : Type :=
| LITERAL (c : ascii)
| AT_BOUNDARY
| MAX_REPEAT_NOT_LITERAL (c : ascii).

Definition pattern := list node.

(** [\b] holds between a word character and a non-word character, the
    two ends of the string counting as non-word.  [prev] is the
    character before the current position in the subject string. *)
Definition at_boundary (prev : option ascii) (s : text) : bool :=
  xorb (is_word_opt prev) (is_word_opt (head s)).

(** Greedy repetition of [[^c]]: take one more character when possible
    and try the rest of the pattern [k] after it; fall back to [k] at
    the current position when that fails. *)
Fixpoint max_repeat_not (c : ascii) (k : option ascii -> text -> option nat)
    (prev : option ascii) (s : text) : option nat :=
  match s with
  | x :: s' =>
      if Ascii.eqb x c then k prev s
      else match max_repeat_not c k (Some x) s' with
           | Some n => Some (S n)
           | None => k prev s
           end
  | [] => k prev s
  end.

(** [match_here p prev s]: the backtracking matcher anchored at the
    current position; the length of the match it finds first, if any. *)
Fixpoint match_here (p : pattern) (prev : option ascii) (s : text) : option nat :=
  match p with
  | [] => Some 0
  | LITERAL c :: p' =>
      match s with
      | x :: s' =>
          if Ascii.eqb x c then
            match match_here p' (Some x) s' with
            | Some n => Some (S n)
            | None => None
            end
          else None
      | [] => None
      end
  | AT_BOUNDARY :: p' =>
      if at_boundary prev s then match_here p' prev s else None
  | MAX_REPEAT_NOT_LITERAL c :: p' =>
      max_repeat_not c (match_here p') prev s
  end.

(** The scan shared by [re.sub] and [re.findall]: walk the subject from
    left to right; [skip] counts the characters still covered by the
    match found last.  A match that starts at the current position is
    deleted (replacement ['']); an empty match deletes nothing. *)
Fixpoint sub_go (p : pattern) (prev : option ascii) (s : text) (skip : nat) : text :=
  match s with
  | [] => []
  | x :: s' =>
      match skip with
      | S k => sub_go p (Some x) s' k
      | O =>
          match match_here p prev s with
          | Some (S n) => sub_go p (Some x) s' n
          | _ => x :: sub_go p (Some x) s' 0
          end
      end
  end.

(** [re.sub(p, '', s)] *)
Definition sub (p : pattern) (s : text) : text := sub_go p None s 0.

Fixpoint findall_go (p : pattern) (prev : option ascii) (s : text) (skip : nat) : nat :=
  match s with
  | [] => match skip, match_here p prev [] with O, Some _ => 1 | _, _ => 0 end
  | x :: s' =>
      match skip with
      | S k => findall_go p (Some x) s' k
      | O =>
          match match_here p prev s with
          | Some (S n) => S (findall_go p (Some x) s' n)
          | Some O => S (findall_go p (Some x) s' 0)
          | None => findall_go p (Some x) s' 0
          end
      end
  end.

(** [len(re.findall(p, s))]: the number of non-overlapping matches. *)
Definition findall_count (p : pattern) (s : text) : nat := findall_go p None s 0.

End Re.

Import Re.

(** ** The patterns of [remove_annotations] *)

Definition lits (s : string) : pattern := map LITERAL (T s).

(** [r'@\bName\b'] *)
Definition annotation (name : string) : pattern :=
  [LITERAL "@"%char; AT_BOUNDARY] ++ lits name ++ [AT_BOUNDARY].

(** The six names that are always removed, in the order of the passes. *)
Definition nullability_names : list string :=
  ["Nullable"; "NonNull"; "Nonnull"; "Notnull"; "NotNull"; "MonotonicNonNull"]%string.

Definition nullable_pattern : pattern := annotation "Nullable".
Definition nonnull_pattern : pattern := annotation "NonNull".
Definition nonnull_strict_pattern : pattern := annotation "Nonnull".
Definition notnull_pattern : pattern := annotation "Notnull".
Definition not_null_strict_pattern : pattern := annotation "NotNull".
Definition monotonic_nonnull_pattern : pattern := annotation "MonotonicNonNull".

(** [r'@\bSuppressWarnings\b\([^\)]*\)'] *)
Definition suppress_warnings_pattern : pattern :=
  [LITERAL "@"%char; AT_BOUNDARY] ++ lits "SuppressWarnings"
  ++ [AT_BOUNDARY; LITERAL "("%char; MAX_REPEAT_NOT_LITERAL ")"%char; LITERAL ")"%char].

(** The substitutions of [remove_annotations], from [content] to
    [new_content]. *)
Definition new_content (remove_suppress_warnings : bool) (content : text) : text :=
  let new_content := sub nullable_pattern content in
  let new_content := sub nonnull_pattern new_content in
  let new_content := sub nonnull_strict_pattern new_content in
  let new_content := sub notnull_pattern new_content in
  let new_content := sub not_null_strict_pattern new_content in
  let new_content := sub monotonic_nonnull_pattern new_content in
  if remove_suppress_warnings
  then sub suppress_warnings_pattern new_content
  else new_content.

(** ** Files, standard output and module globals *)

Inductive exn : Type :=
| UnicodeDecodeError
| UnicodeEncodeError
| FileNotFoundError.

(** The seven module-level counters. *)
Record counters : Type := Counters {
  total_nullable_count : nat;
  total_nonnull_count : nat;
  total_nonnull_strict_count : nat;
  total_notnull_count : nat;
  total_not_null_strict_count : nat;
  total_monotonic_nonnull_count : nat;
  total_suppress_warnings_count : nat
}.

(** What [os.walk] finds below a directory: the names of its regular
    files and its sub-directories, in the order the system lists them. *)
#[warnings="-register-all"]
Inductive dir : Type :=
| Dir (files : list text) (subdirs : list (text * dir)).

Record world : Type := World {
  store : gmap text (list byte);      (* file contents, by path *)
  listing : text -> option dir;       (* the tree found at a directory path *)
  write_log : list text;              (* paths opened in mode 'w', oldest first *)
  stdout : list text;                 (* the arguments of [print], oldest first *)
  globals : counters
}.

Definition set_store (f : gmap text (list byte) -> gmap text (list byte)) (w : world) : world :=
  World (f (store w)) (listing w) (write_log w) (stdout w) (globals w).
Definition log_write (path : text) (w : world) : world :=
  World (store w) (listing w) (write_log w ++ [path]) (stdout w) (globals w).
Definition put_line (line : text) (w : world) : world :=
  World (store w) (listing w) (write_log w) (stdout w ++ [line]) (globals w).

(** Computations that return a value or raise, with the world at that
    point. *)
Inductive outcome (A : Type) : Type :=
| Returned (a : A) (w : world)
| Raised (e : exn) (w : world).
Arguments Returned {A} a w.
Arguments Raised {A} e w.

Definition M (A : Type) : Type := world -> outcome A.

Definition ret {A} (a : A) : M A := fun w => Returned a w.
Definition bind {A B} (c : M A) (k : A -> M B) : M B :=
  fun w => match c w with
           | Returned a w' => k a w'
           | Raised e w' => Raised e w'
           end.

Notation "x <- c ;; k" := (bind c (fun x => k))
  (at level 100, c at next level, right associativity).
Notation "c ;;; k" := (bind c (fun _ => k))
  (at level 100, right associativity).

Fixpoint for_each {A} (l : list A) (body : A -> M unit) : M unit :=
  match l with
  | [] => ret tt
  | a :: l' => body a ;;; for_each l' body
  end.

Definition final_world {A} (o : outcome A) : world :=
  match o with Returned _ w => w | Raised _ w => w end.

Definition print (line : text) : M unit := fun w => Returned tt (put_line line w).

(** *** The [us-ascii] codec and text mode *)

Definition decode_ascii (b : list byte) : option text :=
  if forallb (fun x => Byte.to_nat x <? 128) b
  then Some (map ascii_of_byte b) else None.

Definition encode_ascii (s : text) : option (list byte) :=
  if forallb (fun c => nat_of_ascii c <? 128) s
  then Some (map byte_of_ascii s) else None.

Definition CR : ascii := "013"%char.
Definition LF : ascii := "010"%char.

(** Reading with [newline=None]: ['\r\n'] and a lone ['\r'] become ['\n']. *)
Fixpoint universal_newlines (s : text) : text :=
  match s with
  | [] => []
  | c :: s' =>
      if Ascii.eqb c CR then
        match s' with
        | d :: s'' => if Ascii.eqb d LF then LF :: universal_newlines s''
                      else LF :: universal_newlines s'
        | [] => [LF]
        end
      else c :: universal_newlines s'
  end.

(** Writing with [newline=None]: ['\n'] becomes [os.linesep]. *)
Definition translate_newlines (linesep : text) (s : text) : text :=
  flat_map (fun c => if Ascii.eqb c LF then linesep else [c]) s.

(** [os.path.join] of [posixpath], for two components *)
Definition startswith (s prefix : text) : bool := bool_decide (prefix `prefix_of` s).
Definition endswith (s suffix : text) : bool := bool_decide (suffix `suffix_of` s).

Definition join (a b : text) : text :=
  if startswith b (T "/") then b
  else if bool_decide (a = []) || endswith a (T "/") then a ++ b
  else a ++ T "/" ++ b.

(** [os.walk(top)], top-down, not following links *)
Fixpoint walk_dir (top : text) (d : dir) : list (text * list text * list text) :=
  match d with
  | Dir files subdirs =>
      (top, map fst subdirs, files)
      :: (fix below (l : list (text * dir)) :=
            match l with
            | [] => []
            | (name, d') :: l' => walk_dir (join top name) d' ++ below l'
            end) subdirs
  end.

(** The directory entries are read before the files are rewritten; the
    rewriting neither adds nor removes entries. *)
Definition walk (top : text) : M (list (text * list text * list text)) :=
  fun w => Returned (match listing w top with
                     | Some d => walk_dir top d
                     | None => []
                     end) w.

(** [str(n)] *)
Definition str (n : nat) : text := T (NilEmpty.string_of_uint (Nat.to_uint n)).

Definition get_globals : M counters := fun w => Returned (globals w) w.

Section Platform.

(** [os.linesep] *)
Variable linesep : text.

(** [with open(path, 'r', encoding='us-ascii') as file: file.read()] *)
Definition read_text (path : text) : M text :=
  fun w =>
    match store w !! path with
    | None => Raised FileNotFoundError w
    | Some b =>
        match decode_ascii b with
        | None => Raised UnicodeDecodeError w
        | Some s => Returned (universal_newlines s) w
        end
    end.

(** [with open(path, 'w', encoding='us-ascii') as file: file.write(s)];
    opening truncates the file before anything is encoded. *)
Definition write_text (path : text) (s : text) : M unit :=
  fun w =>
    let w := log_write path (set_store (insert path []) w) in
    match encode_ascii (translate_newlines linesep s) with
    | None => Raised UnicodeEncodeError w
    | Some b => Returned tt (set_store (insert path b) w)
    end.

(** *** [remove_annotations] *)

(** The [global] statement only names the counters; no statement of the
    function assigns to them. *)
Definition remove_annotations (file_path : text) (remove_suppress_warnings : bool) : M unit :=
  content <- read_text file_path ;;
  write_text file_path (new_content remove_suppress_warnings content).

(** *** [process_directory] *)

Definition process_directory (directory : text) (remove_suppress_warnings : bool) : M unit :=
  entries <- walk directory ;;
  for_each entries (fun '(root, _, files) =>
    for_each files (fun file =>
      if endswith file (T ".java") then
        let file_path := join root file in
        remove_annotations file_path remove_suppress_warnings ;;;
        print (T "Processed " ++ file_path)
      else ret tt)).

(** *** The [__main__] block, after argument parsing *)

Definition main (src_directory : text) (remove_suppress_warnings : bool) : M unit :=
  process_directory src_directory remove_suppress_warnings ;;;
  print (LF :: T "Total occurrences removed:") ;;;
  g <- get_globals ;;
  print (T "  @Nullable: " ++ str (total_nullable_count g)) ;;;
  print (T "  @NonNull: " ++ str (total_nonnull_count g)) ;;;
  print (T "  @Nonnull: " ++ str (total_nonnull_strict_count g)) ;;;
  print (T "  @Notnull: " ++ str (total_notnull_count g)) ;;;
  print (T "  @NotNull: " ++ str (total_not_null_strict_count g)) ;;;
  print (T "  @MonotonicNonNull: " ++ str (total_monotonic_nonnull_count g)) ;;;
  if remove_suppress_warnings
  then print (T "  @SuppressWarnings: " ++ str (total_suppress_warnings_count g))
  else ret tt.

End Platform.

(** The state of a fresh interpreter: counters at zero, nothing printed. *)
Definition zero_counters : counters := Counters 0 0 0 0 0 0 0.

Definition initial_world (files : gmap text (list byte)) (tree : text -> option dir) : world :=
  World files tree [] [] zero_counters.

Definition B (s : string) : list byte := list_byte_of_string s.

(** ** Vocabulary of the statements *)

(** The text after a match must not continue the name. *)
Definition nw_start (s : text) : bool := negb (is_word_opt (head s)).

(** The character before the position reached after reading [w]. *)
Definition prev_after (prev : option ascii) (w : text) : option ascii :=
  fold_left (fun _ c => Some c) w prev.

(** [name] occurs in [s] as an annotation: [@name] followed by a
    non-word character or the end of the text. *)
Definition occurs (name s : text) : Prop :=
  exists pre rest, s = pre ++ "@"%char :: name ++ rest /\ nw_start rest = true.

(** [annotation name], for a name given as a text. *)
Definition ann (w : text) : pattern :=
  LITERAL "@"%char :: AT_BOUNDARY :: map LITERAL w ++ [AT_BOUNDARY].

(** A non-empty run of word characters. *)
Definition word (w : text) : Prop := w <> [] /\ forallb is_word w = true.

(** One of the six unconditional substitutions. *)
Definition pass (s : text) (name : string) : text := sub (annotation name) s.

(** The patterns the transformation targets under a flag, and the texts
    in which none of them matches anywhere. *)
Definition targets (flag : bool) : list pattern :=
  map annotation nullability_names ++ (if flag then [suppress_warnings_pattern] else []).

Definition clean (flag : bool) (content : text) : Prop :=
  forall p, In p (targets flag) -> findall_count p content = 0.

(** [ok] holds of the text after every match of [p] in [s], at whatever
    position the match starts. *)
Fixpoint every_match (p : pattern) (ok : text -> bool) (prev : option ascii) (s : text) : bool :=
  match s with
  | [] => true
  | x :: s' =>
      match match_here p prev s with
      | Some n => ok (drop n s)
      | None => true
      end && every_match p ok (Some x) s'
  end.

(** [ok] holds after every [@SuppressWarnings(...)] span of [s]. *)
Definition spans_ok (ok : text -> bool) (s : text) : Prop :=
  every_match suppress_warnings_pattern ok None s = true.

(** Every [@SuppressWarnings(...)] span of [s] is followed by a
    non-word character or by the end of the text. *)
Definition spans_delimited (s : text) : bool :=
  every_match suppress_warnings_pattern nw_start None s.

(** The text is empty or starts with a non-word character other than [(]. *)
Definition detached (s : text) : bool :=
  nw_start s && negb (match head s with Some c => Ascii.eqb c "("%char | None => false end).

(** Every [@SuppressWarnings(...)] span of [s] is followed by a
    non-word character other than [(], or by the end of the text. *)
Definition spans_detached (s : text) : bool :=
  every_match suppress_warnings_pattern detached None s.

Definition SW_NAME : text := T "@SuppressWarnings".
Definition SW_OPEN : text := T "@SuppressWarnings(".

(** What [os.walk] yields from [directory] in world [w]. *)
Definition entries (w : world) (directory : text) : list (text * list text * list text) :=
  match listing w directory with
  | Some d => walk_dir directory d
  | None => []
  end.

(** The paths [process_directory] hands to [remove_annotations], in order. *)
Definition selected (es : list (text * list text * list text)) : list text :=
  flat_map (fun '(root, _, files) =>
              map (join root) (List.filter (fun file => endswith file (T ".java")) files)) es.

(** The progress line of a path, and the first line of the summary. *)
Definition progress (file_path : text) : text := T "Processed " ++ file_path.
Definition summary_header : text := LF :: T "Total occurrences removed:".

(** The body of the inner loop for a selected file. *)
Definition process_file (linesep : text) (flag : bool) (file_path : text) : M unit :=
  remove_annotations linesep file_path flag ;;; print (progress file_path).

Definition is_ascii (s : text) : Prop := Forall (fun c => nat_of_ascii c < 128) s.

Definition bytes (s : text) : list byte := map byte_of_ascii s.

(** What [remove_annotations] writes for decoded [content]. *)
Definition written (linesep : text) (flag : bool) (content : text) : text :=
  translate_newlines linesep (new_content flag (universal_newlines content)).

(** The file at [p] exists and holds ASCII bytes only. *)
Definition decodable (w : world) (p : text) : Prop :=
  exists b content, store w !! p = Some b /\ decode_ascii b = Some content.

(** A name that is a non-empty run of word characters. *)
Definition word_name (name : string) : Prop := word (T name).

(** The patterns all start with the literal [@]. *)
Definition at_headed (p : pattern) : Prop := exists q, p = LITERAL "@"%char :: q.

(** The lines [__main__] prints after the walk. *)
Definition summary (flag : bool) (g : counters) : list text :=
  [ summary_header;
    T "  @Nullable: " ++ str (total_nullable_count g);
    T "  @NonNull: " ++ str (total_nonnull_count g);
    T "  @Nonnull: " ++ str (total_nonnull_strict_count g);
    T "  @Notnull: " ++ str (total_notnull_count g);
    T "  @NotNull: " ++ str (total_not_null_strict_count g);
    T "  @MonotonicNonNull: " ++ str (total_monotonic_nonnull_count g) ]
  ++ (if flag then [T "  @SuppressWarnings: " ++ str (total_suppress_warnings_count g)] else []).

(** ** Sample inputs *)

Definition DQUOTE : ascii := "034"%char.

(** [@SuppressWarnings("unchecked") void f() {}] *)
Definition suppress_unchecked : text :=
  T "@SuppressWarnings(" ++ [DQUOTE] ++ T "unchecked" ++ [DQUOTE] ++ T ") void f() {}".

Definition spliced : text := T "@Null@SuppressWarnings()able".
Definition four_kinds : text := T "@NonNull @Nonnull @NotNull @Notnull".
Definition nested_bare : text := T "@SuppressWarnings(@SuppressWarnings)".

(** A directory [src] holding the given files and nothing else, in a
    fresh interpreter. *)
Definition src_tree (names : list text) : text -> option dir :=
  fun top => if bool_decide (top = T "src") then Some (Dir names []) else None.

Definition src_world (files : list (text * list byte)) : world :=
  initial_world (list_to_map (map (fun '(name, b) => (join (T "src") name, b)) files))
                (src_tree (map fst files)).

Definition w_nullable : world := src_world [(T "A.java", B "@Nullable x")].
Definition w_four : world := src_world [(T "A.java", bytes four_kinds)].
Definition w_suppress : world := src_world [(T "A.java", bytes suppress_unchecked)].
Definition w_latin1 : world := src_world [(T "A.java", [x41; xe9]%byte)].
Definition w_plain : world := src_world [(T "A.java", B "class A {}")].
Definition w_notes : world := src_world [(T "notes.txt", B "@Nullable y")].
Definition w_crlf : world := src_world [(T "A.java", [x61; x0d; x0a; x62]%byte)].
Definition w_three : world :=
  src_world [(T "A.java", B "@Nullable x"); (T "B.java", [x41; xe9]%byte);
             (T "C.java", B "@NonNull z")].

(** * Properties of the engine *)

Section Engine.

Lemma max_repeat_not_le c k :
  (forall prev s n, k prev s = Some n -> n <= length s) ->
  forall s prev n, max_repeat_not c k prev s = Some n -> n <= length s.
Proof.
  intros Hk s. induction s as [|x s IH]; intros prev n; simpl.
  - apply Hk.
  - destruct (Ascii.eqb x c).
    + intros H. apply Hk in H. exact H.
    + destruct (max_repeat_not c k (Some x) s) as [m|] eqn:E.
      * intros [= <-]. apply IH in E. lia.
      * intros H. apply Hk in H. exact H.
Qed.

(** A match never extends past the end of the subject. *)
Lemma match_here_le p : forall prev s n, match_here p prev s = Some n -> n <= length s.
Proof.
  induction p as [|nd p IH]; intros prev s n; simpl.
  - intros [= <-]. lia.
  - destruct nd as [c| |c].
    + destruct s as [|x s]; [discriminate|].
      destruct (Ascii.eqb x c); [|discriminate].
      destruct (match_here p (Some x) s) as [m|] eqn:E; [|discriminate].
      intros [= <-]. apply IH in E. simpl. lia.
    + destruct (at_boundary prev s); [apply IH | discriminate].
    + apply max_repeat_not_le. exact IH.
Qed.

(** A pattern that starts with a literal does not look behind. *)
Lemma match_here_literal_prev c q prev prev' s :
  match_here (LITERAL c :: q) prev s = match_here (LITERAL c :: q) prev' s.
Proof. reflexivity. Qed.

Lemma match_here_literal_pos c q prev s n :
  match_here (LITERAL c :: q) prev s = Some n -> exists m s', n = S m /\ s = c :: s'.
Proof.
  simpl. destruct s as [|x s]; [discriminate|].
  destruct (Ascii.eqb x c) eqn:E; [|discriminate].
  apply Ascii.eqb_eq in E. subst x.
  destruct (match_here q (Some c) s) as [m|]; [|discriminate].
  intros [= <-]. eauto.
Qed.

Lemma sub_go_literal_prev c q prev prev' s k :
  sub_go (LITERAL c :: q) prev s k = sub_go (LITERAL c :: q) prev' s k.
Proof. destruct s; reflexivity. Qed.

Lemma findall_go_literal_prev c q prev prev' s k :
  findall_go (LITERAL c :: q) prev s k = findall_go (LITERAL c :: q) prev' s k.
Proof. destruct s; reflexivity. Qed.

(** Skipping the characters of a match. *)
Lemma sub_go_skip c q : forall a prev rest,
  sub_go (LITERAL c :: q) prev (a ++ rest) (length a) = sub (LITERAL c :: q) rest.
Proof.
  induction a as [|x a IH]; intros prev rest; simpl.
  - apply sub_go_literal_prev.
  - apply IH.
Qed.

Lemma findall_go_skip c q : forall a prev rest,
  findall_go (LITERAL c :: q) prev (a ++ rest) (length a)
  = findall_count (LITERAL c :: q) rest.
Proof.
  induction a as [|x a IH]; intros prev rest; simpl.
  - unfold findall_count. destruct rest; reflexivity.
  - apply IH.
Qed.

Lemma sub_nil p : sub p [] = [].
Proof. reflexivity. Qed.

(** No match at the head: the head character is kept. *)
Lemma sub_cons_no_match c q x s :
  match_here (LITERAL c :: q) None (x :: s) = None ->
  sub (LITERAL c :: q) (x :: s) = x :: sub (LITERAL c :: q) s.
Proof.
  unfold sub. cbn [sub_go]. intros ->. f_equal. apply sub_go_literal_prev.
Qed.

(** A match of length [n] at the head: its [n] characters are dropped. *)
Lemma sub_match c q s n :
  match_here (LITERAL c :: q) None s = Some n ->
  sub (LITERAL c :: q) s = sub (LITERAL c :: q) (drop n s).
Proof.
  intros H. pose proof (match_here_le _ _ _ _ H) as Hle.
  destruct (match_here_literal_pos _ _ _ _ _ H) as (m & s' & -> & ->).
  unfold sub at 1. cbn [sub_go]. rewrite H. cbn [drop].
  simpl in Hle.
  pose proof (sub_go_skip c q (take m s') (Some c) (drop m s')) as E.
  rewrite take_drop, length_take in E.
  replace (m `min` length s') with m in E by lia. exact E.
Qed.

Lemma findall_cons_no_match c q x s :
  match_here (LITERAL c :: q) None (x :: s) = None ->
  findall_count (LITERAL c :: q) (x :: s) = findall_count (LITERAL c :: q) s.
Proof.
  unfold findall_count. cbn [findall_go]. intros ->. apply findall_go_literal_prev.
Qed.

Lemma findall_match c q s n :
  match_here (LITERAL c :: q) None s = Some n ->
  findall_count (LITERAL c :: q) s = S (findall_count (LITERAL c :: q) (drop n s)).
Proof.
  intros H. pose proof (match_here_le _ _ _ _ H) as Hle.
  destruct (match_here_literal_pos _ _ _ _ _ H) as (m & s' & -> & ->).
  unfold findall_count at 1. cbn [findall_go]. rewrite H. cbn [drop].
  simpl in Hle. f_equal.
  pose proof (findall_go_skip c q (take m s') (Some c) (drop m s')) as E.
  rewrite take_drop, length_take in E.
  replace (m `min` length s') with m in E by lia. exact E.
Qed.

End Engine.

(** * The patterns [@\bName\b] *)

Lemma annotation_ann name : annotation name = ann (T name).
Proof. reflexivity. Qed.

Lemma is_word_at : is_word "@"%char = false.
Proof. reflexivity. Qed.

(** A run of literals matches exactly itself. *)
Lemma match_lits p : forall w prev s n,
  match_here (map LITERAL w ++ p) prev s = Some n <->
  exists rest m, s = w ++ rest /\ match_here p (prev_after prev w) rest = Some m
                 /\ n = length w + m.
Proof.
  induction w as [|c w IH]; intros prev s n; simpl.
  - split.
    + intros H. exists s, n. auto.
    + intros (rest & m & -> & H & ->). exact H.
  - destruct s as [|x s].
    { split; [discriminate|]. intros (rest & m & H & _). discriminate. }
    destruct (Ascii.eqb x c) eqn:E.
    2:{ split; [discriminate|]. intros (rest & m & [= -> _] & _).
        rewrite Ascii.eqb_refl in E. discriminate. }
    apply Ascii.eqb_eq in E. subst x.
    destruct (match_here (map LITERAL w ++ p) (Some c) s) as [k|] eqn:Ek.
    + pose proof Ek as Ek'. apply IH in Ek'. destruct Ek' as (rest & m & -> & Hm & ->).
      split.
      * intros [= <-]. exists rest, m. auto.
      * intros (rest' & m' & [= Hs] & Hm' & ->). apply app_inv_head in Hs. subst rest'.
        rewrite Hm in Hm'. by injection Hm' as ->.
    + split; [discriminate|]. intros (rest & m & [= ->] & Hm & ->).
      assert (match_here (map LITERAL w ++ p) (Some c) (w ++ rest) = Some (length w + m))
        as H by (apply IH; eauto).
      congruence.
Qed.

Lemma match_lits_boundary w prev s n :
  match_here (map LITERAL w ++ [AT_BOUNDARY]) prev s = Some n <->
  exists rest, s = w ++ rest /\ at_boundary (prev_after prev w) rest = true /\ n = length w.
Proof.
  rewrite match_lits. split.
  - intros (rest & m & -> & H & ->). simpl in H.
    destruct (at_boundary (prev_after prev w) rest) eqn:Eb; [|discriminate].
    injection H as <-. exists rest. split; [done|]. split; [done|lia].
  - intros (rest & -> & H & ->). exists rest, 0. simpl. rewrite H.
    split; [done|]. split; [done|lia].
Qed.

Lemma prev_after_word w prev :
  word w -> exists c, prev_after prev w = Some c /\ is_word c = true.
Proof.
  intros [Hne Hw]. revert prev. induction w as [|c w IH]; intros prev; [done|].
  simpl in *. apply andb_true_iff in Hw as [Hc Hw].
  destruct w as [|d w'].
  - exists c. auto.
  - apply IH; [done | exact Hw].
Qed.

Lemma head_word w rest : word w -> is_word_opt (head (w ++ rest)) = true.
Proof.
  intros [Hne Hw]. destruct w as [|c w]; [done|].
  simpl in *. apply andb_true_iff in Hw as [Hc _]. exact Hc.
Qed.

Section Annotation.

Variable q : text.
Hypothesis q_word : word q.

(** Where [@\bq\b] matches, and how much. *)
Lemma match_ann prev s n :
  match_here (ann q) prev s = Some n <->
  exists rest, s = "@"%char :: q ++ rest /\ nw_start rest = true /\ n = S (length q).
Proof.
  unfold ann. cbn [match_here].
  destruct s as [|x s].
  { split; [discriminate|]. intros (rest & H & _). discriminate. }
  destruct (Ascii.eqb x "@") eqn:E.
  2:{ split; [discriminate|]. intros (rest & [= -> _] & _). discriminate. }
  apply Ascii.eqb_eq in E. subst x.
  destruct (prev_after_word q (Some "@"%char) q_word) as (c & Hc & Hcw).
  destruct (at_boundary (Some "@"%char) s) eqn:Eb.
  - destruct (match_here (map LITERAL q ++ [AT_BOUNDARY]) (Some "@"%char) s) as [m|] eqn:Em.
    + apply match_lits_boundary in Em. destruct Em as (rest & -> & Hb & ->).
      rewrite Hc in Hb. unfold at_boundary in Hb. simpl in Hb. rewrite Hcw in Hb.
      split.
      * intros [= <-]. exists rest. unfold nw_start. auto.
      * intros (rest' & _ & _ & ->). reflexivity.
    + split; [discriminate|]. intros (rest & [= ->] & Hnw & ->).
      assert (match_here (map LITERAL q ++ [AT_BOUNDARY]) (Some "@"%char) (q ++ rest)
              = Some (length q)) as H.
      { apply match_lits_boundary. exists rest. split; [done|]. split; [|done].
        rewrite Hc. unfold at_boundary. simpl. rewrite Hcw. exact Hnw. }
      congruence.
  - split; [discriminate|]. intros (rest & [= ->] & _).
    unfold at_boundary in Eb. rewrite (head_word q rest q_word) in Eb. discriminate.
Qed.

Lemma match_ann_prev prev s : match_here (ann q) prev s = match_here (ann q) None s.
Proof. reflexivity. Qed.

Lemma match_ann_occurrence rest :
  nw_start rest = true ->
  match_here (ann q) None ("@"%char :: q ++ rest) = Some (S (length q)).
Proof. intros H. apply match_ann. eauto. Qed.

Lemma sub_ann_match rest :
  nw_start rest = true ->
  sub (ann q) ("@"%char :: q ++ rest) = sub (ann q) rest.
Proof.
  intros H. pose proof (sub_match _ _ _ _ (match_ann_occurrence rest H)) as E.
  cbn [drop] in E. rewrite drop_app_length in E. exact E.
Qed.

Lemma sub_ann_no_match x s :
  match_here (ann q) None (x :: s) = None ->
  sub (ann q) (x :: s) = x :: sub (ann q) s.
Proof. apply sub_cons_no_match. Qed.

Lemma findall_ann_match rest :
  nw_start rest = true ->
  findall_count (ann q) ("@"%char :: q ++ rest) = S (findall_count (ann q) rest).
Proof.
  intros H. pose proof (findall_match _ _ _ _ (match_ann_occurrence rest H)) as E.
  cbn [drop] in E. rewrite drop_app_length in E. exact E.
Qed.

Lemma findall_ann_no_match x s :
  match_here (ann q) None (x :: s) = None ->
  findall_count (ann q) (x :: s) = findall_count (ann q) s.
Proof. apply findall_cons_no_match. Qed.

Lemma sub_ann_other x s :
  x <> "@"%char -> sub (ann q) (x :: s) = x :: sub (ann q) s.
Proof.
  intros Hx. apply sub_ann_no_match.
  destruct (match_here _ None (x :: s)) as [n|] eqn:E; [|done].
  apply match_ann in E. destruct E as (rest & [= -> _] & _). done.
Qed.

(** The result of a pass starts with a non-word character whenever its
    input does. *)
Lemma sub_ann_nw_start : forall s,
  nw_start s = true -> nw_start (sub (ann q) s) = true.
Proof.
  intros s. remember (length s) as k eqn:Hk. revert s Hk.
  induction k as [k IH] using lt_wf_ind. intros s Hk Hs.
  destruct s as [|x s]; [done|].
  destruct (match_here (ann q) None (x :: s)) as [n|] eqn:E.
  - apply match_ann in E. destruct E as (rest & [= -> ->] & Hr & ->).
    rewrite (sub_ann_match _ Hr).
    apply (IH (length rest)); [|done|done].
    subst k. simpl. rewrite length_app. lia.
  - rewrite (sub_ann_no_match _ _ E). exact Hs.
Qed.

(** A run of word characters followed by a boundary in the output of a
    pass stood the same way in its input. *)
Lemma sub_ann_word_prefix : forall v s post,
  forallb is_word v = true -> nw_start post = true ->
  sub (ann q) s = v ++ post ->
  exists post', s = v ++ post' /\ nw_start post' = true.
Proof.
  induction v as [|c v IH]; intros s post Hv Hpost Hs; simpl in *.
  - exists s. split; [done|].
    destruct s as [|x s]; [done|].
    destruct (is_word x) eqn:Ex; [|unfold nw_start; simpl; by rewrite Ex].
    rewrite sub_ann_other in Hs by (intros ->; discriminate).
    subst post. unfold nw_start in Hpost. simpl in Hpost. rewrite Ex in Hpost. done.
  - apply andb_true_iff in Hv as [Hc Hv].
    destruct s as [|x s]; [discriminate|].
    destruct (is_word x) eqn:Ex.
    + rewrite sub_ann_other in Hs by (intros ->; discriminate).
      injection Hs as -> Hs.
      destruct (IH s post Hv Hpost Hs) as (post' & -> & Hp). eauto.
    + assert (nw_start (sub (ann q) (x :: s)) = true) as H.
      { apply sub_ann_nw_start. unfold nw_start. simpl. by rewrite Ex. }
      rewrite Hs in H. unfold nw_start in H. simpl in H. rewrite Hc in H. done.
Qed.

(** Every occurrence of a name [v] in the output of the pass for [q]
    comes from an occurrence in its input at which [q]'s pattern does
    not match. *)
Lemma occurs_sub_ann v : forallb is_word v = true -> forall s,
  occurs v (sub (ann q) s) ->
  exists pre rest, s = pre ++ "@"%char :: v ++ rest /\ nw_start rest = true
                   /\ match_here (ann q) None ("@"%char :: v ++ rest) = None.
Proof.
  intros Hv s. remember (length s) as k eqn:Hk. revert s Hk.
  induction k as [k IH] using lt_wf_ind. intros s Hk (pre & rest & Hs & Hr).
  destruct s as [|x s]; [by destruct pre|].
  destruct (match_here (ann q) None (x :: s)) as [n|] eqn:E.
  - pose proof E as E'. apply match_ann in E'. destruct E' as (rest' & Hxs & Hr' & ->).
    rewrite Hxs, (sub_ann_match _ Hr') in Hs.
    destruct (IH (length rest')) with (s := rest') as (pre2 & rest2 & -> & H2 & H3).
    { subst k. rewrite Hxs. simpl. rewrite length_app. lia. }
    { done. }
    { exists pre, rest. done. }
    exists ("@"%char :: q ++ pre2), rest2. rewrite Hxs.
    split; [|done]. simpl. by rewrite <- app_assoc.
  - rewrite (sub_ann_no_match _ _ E) in Hs.
    destruct pre as [|y pre]; simpl in Hs.
    + injection Hs as -> Hs.
      destruct (sub_ann_word_prefix v s rest Hv Hr Hs) as (post' & -> & Hp).
      exists [], post'. done.
    + injection Hs as -> Hs.
      destruct (IH (length s)) with (s := s) as (pre2 & rest2 & -> & H2 & H3).
      { subst k. simpl. lia. }
      { done. }
      { exists pre, rest. done. }
      exists (y :: pre2), rest2. done.
Qed.

(** The pass for [q] leaves no occurrence of [q] ... *)
Lemma sub_ann_removes s : ~ occurs q (sub (ann q) s).
Proof.
  intros H. destruct q_word as [_ Hq].
  destruct (occurs_sub_ann q Hq s H) as (pre & rest & _ & Hr & Hn).
  rewrite (match_ann_occurrence _ Hr) in Hn. discriminate.
Qed.

(** ... and creates no occurrence of any other name. *)
Lemma sub_ann_creates_none v s :
  forallb is_word v = true -> occurs v (sub (ann q) s) -> occurs v s.
Proof.
  intros Hv H. destruct (occurs_sub_ann v Hv s H) as (pre & rest & -> & Hr & _).
  exists pre, rest. done.
Qed.

(** Counting the matches of the scan against occurrences. *)
Lemma findall_ann_zero s : findall_count (ann q) s = 0 <-> ~ occurs q s.
Proof.
  induction s as [|x s IH].
  - split; [|done]. intros _ (pre & rest & H & _). by destruct pre.
  - destruct (match_here (ann q) None (x :: s)) as [n|] eqn:E.
    + apply match_ann in E. destruct E as (rest & -> & Hr & _).
      rewrite (findall_ann_match _ Hr). split; [done|]. intros H. exfalso. apply H.
      by exists [], rest.
    + rewrite (findall_ann_no_match _ _ E), IH. split.
      * intros H (pre & rest & Hs & Hr). destruct pre as [|y pre]; simpl in Hs.
        -- rewrite Hs, (match_ann_occurrence _ Hr) in E. discriminate.
        -- injection Hs as -> ->. apply H. by exists pre, rest.
      * intros H (pre & rest & -> & Hr). apply H. by exists (x :: pre), rest.
Qed.

End Annotation.

(** * The six passes *)

Lemma sub_no_match c q : forall s,
  findall_count (LITERAL c :: q) s = 0 -> sub (LITERAL c :: q) s = s.
Proof.
  induction s as [|x s IH]; [done|]. intros H.
  destruct (match_here (LITERAL c :: q) None (x :: s)) as [n|] eqn:E.
  - rewrite (findall_match _ _ _ _ E) in H. discriminate.
  - rewrite (findall_cons_no_match _ _ _ _ E) in H.
    rewrite (sub_cons_no_match _ _ _ _ E), IH; done.
Qed.

Lemma sub_ann_no_occurrence q s : word q -> ~ occurs q s -> sub (ann q) s = s.
Proof. intros Hq H. apply sub_no_match. fold (ann q). by apply findall_ann_zero. Qed.

Lemma new_content_false content :
  new_content false content = foldl pass content nullability_names.
Proof. reflexivity. Qed.

Lemma new_content_true content :
  new_content true content = sub suppress_warnings_pattern (new_content false content).
Proof. reflexivity. Qed.

Lemma nullability_names_word : Forall (fun name => word (T name)) nullability_names.
Proof. repeat constructor; discriminate. Qed.

Lemma passes_create_none v : forallb is_word v = true ->
  forall names, Forall (fun name => word (T name)) names ->
  forall s, occurs v (foldl pass s names) -> occurs v s.
Proof.
  intros Hv names Hn. induction Hn as [|name names Hname _ IH]; intros s; simpl; [done|].
  intros H. apply IH in H. unfold pass in H. rewrite annotation_ann in H.
  by apply sub_ann_creates_none in H.
Qed.

Lemma passes_remove names : Forall (fun name => word (T name)) names ->
  forall name s, In name names -> ~ occurs (T name) (foldl pass s names).
Proof.
  intros Hn. induction Hn as [|name' names Hname Hnames IH]; intros name s; simpl; [done|].
  intros [-> | Hin].
  - intros H. apply passes_create_none in H; [|by destruct Hname|done].
    unfold pass in H. rewrite annotation_ann in H. by apply sub_ann_removes in H.
  - by apply IH.
Qed.

Lemma passes_identity names : Forall (fun name => word (T name)) names ->
  forall s, (forall name, In name names -> ~ occurs (T name) s) -> foldl pass s names = s.
Proof.
  intros Hn. induction Hn as [|name names Hname _ IH]; intros s H; simpl; [done|].
  assert (pass s name = s) as ->.
  { unfold pass. rewrite annotation_ann. apply sub_ann_no_occurrence; [done|].
    apply H. by left. }
  apply IH. intros name' Hin. apply H. by right.
Qed.

Lemma new_content_false_clean content name :
  In name nullability_names -> ~ occurs (T name) (new_content false content).
Proof. rewrite new_content_false. apply passes_remove, nullability_names_word. Qed.

Lemma new_content_false_idempotent content :
  new_content false (new_content false content) = new_content false content.
Proof.
  rewrite (new_content_false (new_content false content)).
  apply passes_identity; [apply nullability_names_word|].
  intros name. apply new_content_false_clean.
Qed.

(** * The pattern [@\bSuppressWarnings\b\([^\)]*\)] *)

(** The greedy repeat followed by the closing literal stops at the
    first occurrence of that literal; without one there is no match. *)
Lemma max_repeat_not_close c : forall s prev n,
  max_repeat_not c (match_here [LITERAL c]) prev s = Some n <->
  exists body rest, s = body ++ c :: rest /\ ~ In c body /\ n = S (length body).
Proof.
  induction s as [|x s IH]; intros prev n; cbn [max_repeat_not].
  - simpl. split; [discriminate|]. intros (body & rest & H & _). by destruct body.
  - destruct (Ascii.eqb x c) eqn:E.
    + apply Ascii.eqb_eq in E. subst x. simpl. rewrite Ascii.eqb_refl. split.
      * intros [= <-]. exists [], s. auto.
      * intros (body & rest & Hs & Hb & ->). destruct body as [|y body]; [done|].
        injection Hs as -> _. exfalso. apply Hb. by left.
    + assert (x <> c) as Hx by (intros ->; rewrite Ascii.eqb_refl in E; discriminate).
      destruct (max_repeat_not c (match_here [LITERAL c]) (Some x) s) as [m|] eqn:Em.
      * apply IH in Em. destruct Em as (body & rest & -> & Hb & ->). split.
        -- intros [= <-]. exists (x :: body), rest. split; [done|]. split; [|done].
           intros [H|H]; [by apply Hx | by apply Hb].
        -- intros (body' & rest' & Hs & Hb' & ->). f_equal. f_equal.
           destruct body' as [|y body']; [injection Hs as -> _; done|].
           injection Hs as -> Hs. simpl. f_equal.
           revert body' Hs Hb'. clear -Hb. induction body as [|z body IHb]; intros body' Hs Hb'.
           ++ destruct body' as [|z' body']; [done|]. injection Hs as <- _.
              exfalso. apply Hb'. right. by left.
           ++ destruct body' as [|z' body'].
              ** injection Hs as -> _. exfalso. apply Hb. by left.
              ** injection Hs as <- Hs. simpl. f_equal. apply IHb.
                 --- intros H. apply Hb. by right.
                 --- done.
                 --- intros [H|H]; apply Hb'; [by left | by right; right].
      * simpl. rewrite E. split; [discriminate|].
        intros (body & rest & Hs & Hb & ->).
        destruct body as [|y body]; [injection Hs as -> _; done|].
        injection Hs as -> Hs.
        assert (max_repeat_not c (match_here [LITERAL c]) (Some y) s = Some (S (length body))) as H.
        { apply IH. exists body, rest. split; [done|]. split; [|done].
          intros H. apply Hb. by right. }
        congruence.
Qed.

(** Exactly the spans [@SuppressWarnings( body )] with no [)] in [body]
    match, whatever precedes and follows them. *)
Lemma match_suppress_warnings prev s n :
  match_here suppress_warnings_pattern prev s = Some n <->
  exists body rest, s = SW_OPEN ++ body ++ ")"%char :: rest
                    /\ ~ In ")"%char body /\ n = length SW_OPEN + length body + 1.
Proof.
  change suppress_warnings_pattern with
    (LITERAL "@"%char :: AT_BOUNDARY :: map LITERAL (T "SuppressWarnings")
       ++ [AT_BOUNDARY; LITERAL "("%char; MAX_REPEAT_NOT_LITERAL ")"%char; LITERAL ")"%char]).
  cbn [match_here]. split.
  - destruct s as [|x s]; [discriminate|].
    destruct (Ascii.eqb x "@") eqn:E; [|discriminate].
    apply Ascii.eqb_eq in E. subst x.
    destruct (at_boundary (Some "@"%char) s); [|discriminate].
    destruct (match_here _ (Some "@"%char) s) as [m|] eqn:Em; [|discriminate].
    intros [= <-]. apply match_lits in Em. destruct Em as (r1 & m1 & -> & Hm & ->).
    cbn [match_here] in Hm.
    destruct (at_boundary _ r1); [|discriminate].
    destruct r1 as [|y r2]; [discriminate|].
    destruct (Ascii.eqb y "(") eqn:Ey; [|discriminate].
    apply Ascii.eqb_eq in Ey. subst y.
    destruct (max_repeat_not _ _ _ r2) as [m2|] eqn:Em2; [|discriminate].
    injection Hm as <-.
    apply max_repeat_not_close in Em2. destruct Em2 as (body & rest & -> & Hb & ->).
    exists body, rest. split; [reflexivity|]. split; [done|]. simpl. lia.
  - intros (body & rest & -> & Hb & ->).
    assert (max_repeat_not ")"%char (match_here [LITERAL ")"%char]) (Some "("%char)
              (body ++ ")"%char :: rest) = Some (S (length body))) as H.
    { apply max_repeat_not_close. exists body, rest. auto. }
    simpl. simpl in H. rewrite H. f_equal. lia.
Qed.

(** * The run *)

Section Run.

Variable linesep : text.
Variable flag : bool.

Lemma bind_congr {A B} (c c' : M A) (k k' : A -> M B) w :
  c w = c' w -> (forall a w1, k a w1 = k' a w1) -> bind c k w = bind c' k' w.
Proof. intros Hc Hk. unfold bind. rewrite Hc. destruct (c' w); [apply Hk | reflexivity]. Qed.

Lemma for_each_app {A} (body : A -> M unit) l1 l2 w :
  for_each (l1 ++ l2) body w = (for_each l1 body ;;; for_each l2 body) w.
Proof.
  revert w. induction l1 as [|a l1 IH]; intros w; [reflexivity|].
  cbn [app for_each]. unfold bind in *. destruct (body a w) as [[] w1|e w1]; [|reflexivity].
  apply IH.
Qed.

Lemma for_each_files root files w :
  for_each files (fun file =>
      if endswith file (T ".java") then
        let file_path := join root file in
        remove_annotations linesep file_path flag ;;;
        print (T "Processed " ++ file_path)
      else ret tt) w
  = for_each (map (join root) (List.filter (fun file => endswith file (T ".java")) files))
      (process_file linesep flag) w.
Proof.
  revert w. induction files as [|file files IH]; intros w; [reflexivity|].
  cbn [for_each List.filter]. destruct (endswith file (T ".java")).
  - cbn [map for_each]. unfold process_file, progress, bind.
    destruct (remove_annotations linesep (join root file) flag w) as [[] w1|e w1];
      [apply IH | reflexivity].
  - unfold bind, ret. apply IH.
Qed.

Lemma for_each_entries es w :
  for_each es (fun '(root, _, files) =>
    for_each files (fun file =>
      if endswith file (T ".java") then
        let file_path := join root file in
        remove_annotations linesep file_path flag ;;;
        print (T "Processed " ++ file_path)
      else ret tt)) w
  = for_each (selected es) (process_file linesep flag) w.
Proof.
  revert w. induction es as [|[[root ds] files] es IH]; intros w; [reflexivity|].
  cbn [for_each selected flat_map]. rewrite for_each_app.
  apply bind_congr; [apply for_each_files | intros _ w1; apply IH].
Qed.

(** [process_directory] is the loop over the selected paths. *)
Lemma process_directory_selected directory w :
  process_directory linesep directory flag w
  = for_each (selected (entries w directory)) (process_file linesep flag) w.
Proof.
  unfold process_directory, bind, walk. apply for_each_entries.
Qed.

(** What one call of [remove_annotations] can do to the world. *)
Lemma remove_annotations_frame p w :
  let w' := final_world (remove_annotations linesep p flag w) in
  listing w' = listing w /\ stdout w' = stdout w /\ globals w' = globals w
  /\ (forall q, q <> p -> store w' !! q = store w !! q)
  /\ (write_log w' = write_log w \/ write_log w' = write_log w ++ [p]).
Proof.
  unfold remove_annotations, bind, read_text, write_text.
  destruct (store w !! p) as [b|]; [|simpl; auto 6].
  destruct (decode_ascii b) as [content|]; [|simpl; auto 6].
  destruct (encode_ascii _) as [b'|]; simpl.
  - repeat split; auto. intros q Hq. by rewrite !lookup_insert_ne.
  - repeat split; auto. intros q Hq. by rewrite lookup_insert_ne.
Qed.

Lemma remove_annotations_returned p w u w' :
  remove_annotations linesep p flag w = Returned u w' ->
  exists b content b',
    store w !! p = Some b /\ decode_ascii b = Some content
    /\ encode_ascii (translate_newlines linesep
                       (new_content flag (universal_newlines content))) = Some b'
    /\ store w' = <[p := b']> (store w)
    /\ write_log w' = write_log w ++ [p]
    /\ listing w' = listing w /\ stdout w' = stdout w /\ globals w' = globals w.
Proof.
  unfold remove_annotations, bind, read_text, write_text.
  destruct (store w !! p) as [b|] eqn:Eb; [|discriminate].
  destruct (decode_ascii b) as [content|] eqn:Ed; [|discriminate].
  destruct (encode_ascii _) as [b'|] eqn:E; [|discriminate].
  intros [= <- <-]. exists b, content, b'. simpl.
  rewrite insert_insert_eq. repeat split; done.
Qed.

Lemma remove_annotations_decode_error p w b :
  store w !! p = Some b -> decode_ascii b = None ->
  remove_annotations linesep p flag w = Raised UnicodeDecodeError w.
Proof.
  intros Hb Hd. unfold remove_annotations, bind, read_text. by rewrite Hb, Hd.
Qed.

Lemma for_each_process_cons p ps w :
  for_each (p :: ps) (process_file linesep flag) w
  = match remove_annotations linesep p flag w with
    | Returned _ w1 => for_each ps (process_file linesep flag) (put_line (progress p) w1)
    | Raised e w1 => Raised e w1
    end.
Proof.
  cbn [for_each]. unfold bind, process_file at 1, bind.
  destruct (remove_annotations linesep p flag w); reflexivity.
Qed.

(** The trace of the loop: which paths were opened for writing, which
    progress lines were printed, and what stayed as it was. *)
Lemma for_each_trace ps : forall w,
  let o := for_each ps (process_file linesep flag) w in
  exists wl done,
    write_log (final_world o) = write_log w ++ wl
    /\ stdout (final_world o) = stdout w ++ map progress done
    /\ listing (final_world o) = listing w
    /\ globals (final_world o) = globals w
    /\ (forall q, ~ In q wl -> store (final_world o) !! q = store w !! q)
    /\ incl wl ps /\ incl done ps
    /\ (forall u w', o = Returned u w' -> wl = ps /\ done = ps).
Proof.
  induction ps as [|p ps IH]; intros w; cbn zeta.
  - exists [], []. simpl. rewrite !app_nil_r. split_and!; auto; apply incl_refl.
  - rewrite for_each_process_cons.
    pose proof (remove_annotations_frame p w) as (Hl & Ho & Hg & Hs & Hw).
    destruct (remove_annotations linesep p flag w) as [[] w1|e w1] eqn:E; simpl in *.
    + apply remove_annotations_returned in E.
      destruct E as (b & content & b' & _ & _ & _ & _ & Hw1 & _).
      specialize (IH (put_line (progress p) w1)). cbn zeta in IH.
      destruct IH as (wl & done & H1 & H2 & H3 & H4 & H5 & H6 & H7 & H8).
      exists (p :: wl), (p :: done). simpl in *.
      rewrite H1, H2, H3, H4, Hw1, Ho, Hl, Hg, <- !app_assoc. simpl.
      split_and!; auto.
      * intros q Hq. rewrite H5 by tauto. apply Hs. intros ->. tauto.
      * by apply incl_cons; [left | apply incl_tl].
      * by apply incl_cons; [left | apply incl_tl].
      * intros u w' Hu. destruct (H8 u w' Hu) as [-> ->]. done.
    + destruct Hw as [Hw|Hw].
      * exists [], []. rewrite Hw, Ho, !app_nil_r. split_and!; auto.
        -- intros q _. destruct (decide (q = p)) as [->|Hq]; [|by apply Hs].
           unfold remove_annotations, bind, read_text, write_text in E.
           destruct (store w !! p) as [b|] eqn:Eb; [|by injection E as _ <-].
           destruct (decode_ascii b); [|by injection E as _ <-].
           destruct (encode_ascii _); [discriminate|]. injection E as _ <-.
           simpl in Hw. exfalso. clear -Hw.
           apply (f_equal length) in Hw. rewrite length_app in Hw. simpl in Hw. lia.
        -- intros q [].
        -- intros q [].
        -- discriminate.
      * exists [p], []. rewrite Hw, Ho, !app_nil_r. split_and!; auto.
        -- intros q Hq. apply Hs. intros ->. apply Hq. by left.
        -- intros q [<-|[]]. by left.
        -- intros q [].
        -- discriminate.
Qed.

(** A file that does not decode stops the loop; it is not written. *)
Lemma for_each_decode_error ps : forall w p b,
  In p ps -> store w !! p = Some b -> decode_ascii b = None ->
  exists e w' wl done,
    for_each ps (process_file linesep flag) w = Raised e w'
    /\ store w' !! p = Some b
    /\ write_log w' = write_log w ++ wl /\ ~ In p wl
    /\ stdout w' = stdout w ++ map progress done.
Proof.
  induction ps as [|p0 ps IH]; intros w p b Hin Hb Hd; [done|].
  rewrite for_each_process_cons.
  pose proof (remove_annotations_frame p0 w) as (Hl & Ho & Hg & Hs & Hw).
  destruct (remove_annotations linesep p0 flag w) as [[] w1|e w1] eqn:E; simpl in *.
  - apply remove_annotations_returned in E.
    destruct E as (b0 & content & b' & Hb0 & Hd0 & _ & Hs1 & Hw1 & _).
    assert (p <> p0) as Hne by (intros ->; congruence).
    destruct Hin as [->|Hin]; [done|].
    destruct (IH (put_line (progress p0) w1) p b Hin) as (e & w' & wl & done & H1 & H2 & H3 & H4 & H5).
    { simpl. by rewrite Hs. }
    { done. }
    exists e, w', (p0 :: wl), (p0 :: done). simpl in *.
    rewrite H3, H5, Hw1, Ho, <- !app_assoc. split_and!; auto.
    intros [->|H]; done.
  - destruct (decide (p = p0)) as [->|Hne].
    + rewrite (remove_annotations_decode_error _ _ _ Hb Hd) in E. injection E as <- <-.
      exists UnicodeDecodeError, w, [], []. rewrite !app_nil_r. split_and!; auto.
    + exists e, w1. destruct Hw as [Hw|Hw].
      * exists [], []. rewrite Hw, Ho, !app_nil_r, Hs by done. split_and!; auto.
      * exists [p0], []. rewrite Hw, Ho, !app_nil_r, Hs by done. split_and!; auto.
        intros [->|[]]. done.
Qed.

End Run.

(** * Paths *)






Lemma selected_In es root ds files file :
  In (root, ds, files) es -> In file files -> endswith file (T ".java") = true ->
  In (join root file) (selected es).
Proof.
  intros He Hf Hj. unfold selected. apply in_flat_map. exists (root, ds, files).
  split; [done|]. apply in_map. apply List.filter_In. done.
Qed.


(** * The codec *)

Lemma to_nat_byte_of_ascii c : Byte.to_nat (byte_of_ascii c) = nat_of_ascii c.
Proof. apply Byte.to_of_nat. symmetry. apply byte_of_ascii_via_nat. Qed.

Lemma nat_of_ascii_of_byte x : nat_of_ascii (ascii_of_byte x) = Byte.to_nat x.
Proof. by rewrite <- to_nat_byte_of_ascii, byte_of_ascii_of_byte. Qed.

Lemma decode_ascii_None b :
  decode_ascii b = None <-> Exists (fun x => 128 <= Byte.to_nat x) b.
Proof.
  unfold decode_ascii. induction b as [|x b IH]; simpl.
  - split; [discriminate|]. intros H. inversion H.
  - destruct (Nat.ltb_spec (Byte.to_nat x) 128) as [Hx|Hx]; simpl.
    + destruct (forallb _ b).
      * split; [discriminate|]. intros H. inversion H; subst; [lia|].
        by apply IH in H1.
      * split; [|done]. intros _. right. by apply IH.
    + split; [|done]. intros _. by left.
Qed.

Lemma decode_ascii_is_ascii b s : decode_ascii b = Some s -> is_ascii s.
Proof.
  unfold decode_ascii, is_ascii. destruct (forallb _ b) eqn:E; [|discriminate].
  intros [= <-]. apply List.Forall_forall. intros c Hc.
  apply in_map_iff in Hc as (x & <- & Hx). rewrite nat_of_ascii_of_byte.
  rewrite forallb_forall in E. specialize (E x Hx). by apply Nat.ltb_lt.
Qed.

Lemma encode_ascii_is_ascii s :
  is_ascii s -> encode_ascii s = Some (map byte_of_ascii s).
Proof.
  unfold encode_ascii, is_ascii. intros H.
  assert (forallb (fun c => nat_of_ascii c <? 128) s = true) as ->; [|done].
  apply forallb_forall. intros c Hc. apply Nat.ltb_lt.
  rewrite List.Forall_forall in H. by apply H.
Qed.

Lemma decode_encode_ascii s : forall b, encode_ascii s = Some b -> decode_ascii b = Some s.
Proof.
  unfold encode_ascii, decode_ascii.
  induction s as [|c s IH]; intros b; simpl.
  - by intros [= <-].
  - destruct (nat_of_ascii c <? 128) eqn:Ec; simpl; [|discriminate].
    destruct (forallb _ s) eqn:Es; [|discriminate].
    intros [= <-]. simpl. rewrite to_nat_byte_of_ascii, Ec. simpl.
    specialize (IH _ eq_refl).
    destruct (forallb _ (map byte_of_ascii s)); [|discriminate].
    injection IH as ->. by rewrite ascii_of_byte_of_ascii.
Qed.

Lemma sub_go_Forall (P : ascii -> Prop) p : forall s prev k,
  Forall P s -> Forall P (sub_go p prev s k).
Proof.
  induction s as [|x s IH]; intros prev k H; simpl; [done|].
  inversion H; subst.
  destruct k; [|by apply IH].
  destruct (match_here p prev (x :: s)) as [[|n]|]; try constructor; by try apply IH.
Qed.

Lemma new_content_Forall (P : ascii -> Prop) b s : Forall P s -> Forall P (new_content b s).
Proof.
  intros H. unfold new_content, sub.
  destruct b; repeat apply sub_go_Forall; done.
Qed.

Lemma universal_newlines_Forall (P : ascii -> Prop) : P LF ->
  forall s, Forall P s -> Forall P (universal_newlines s).
Proof.
  intros HP s. remember (length s) as k eqn:Hk. revert s Hk.
  induction k as [k IH] using lt_wf_ind. intros s Hk H.
  destruct s as [|c s]; [done|]. inversion H as [|? ? Hc Hs]; subst. cbn [universal_newlines].
  destruct (Ascii.eqb c CR).
  - destruct s as [|d s]; [by repeat constructor|]. inversion Hs; subst.
    destruct (Ascii.eqb d LF); constructor; try done.
    + eapply IH; [|reflexivity|done]. simpl. lia.
    + eapply IH; [|reflexivity|done]. simpl. lia.
  - constructor; [done|]. eapply IH; [|reflexivity|done]. simpl. lia.
Qed.

Lemma translate_newlines_Forall (P : ascii -> Prop) linesep s :
  Forall P linesep -> Forall P s -> Forall P (translate_newlines linesep s).
Proof.
  intros Hl H. unfold translate_newlines. induction H as [|c s Hc _ IH]; simpl; [done|].
  apply Forall_app. split; [|done]. destruct (Ascii.eqb c LF); [done|by constructor].
Qed.

Lemma written_is_ascii linesep flag content :
  is_ascii linesep -> is_ascii content -> is_ascii (written linesep flag content).
Proof.
  intros Hl Hc. apply translate_newlines_Forall; [done|].
  apply new_content_Forall, universal_newlines_Forall; [|done].
  vm_compute. lia.
Qed.

(** * Successful runs *)

Section Success.

Variable linesep : text.
Hypothesis linesep_ascii : is_ascii linesep.
Variable flag : bool.

Lemma remove_annotations_ok p w b content :
  store w !! p = Some b -> decode_ascii b = Some content ->
  remove_annotations linesep p flag w
  = Returned tt (World (<[p := map byte_of_ascii (written linesep flag content)]> (store w))
                       (listing w) (write_log w ++ [p]) (stdout w) (globals w)).
Proof.
  intros Hb Hd. unfold remove_annotations, bind, read_text, write_text.
  rewrite Hb, Hd. fold (written linesep flag content).
  rewrite (encode_ascii_is_ascii (written linesep flag content)).
  - unfold set_store, log_write. simpl. by rewrite insert_insert_eq.
  - apply written_is_ascii; [done|]. by apply decode_ascii_is_ascii in Hd.
Qed.

(** When every selected file exists and is ASCII, the loop returns. *)
Lemma for_each_returns ps : forall w,
  (forall p, In p ps -> decodable w p) ->
  exists w', for_each ps (process_file linesep flag) w = Returned tt w'.
Proof.
  induction ps as [|p0 ps IH]; intros w H; [by exists w|].
  rewrite for_each_process_cons.
  destruct (H p0) as (b0 & c0 & Hb0 & Hd0); [by left|].
  rewrite (remove_annotations_ok _ _ _ _ Hb0 Hd0).
  apply IH. intros p Hp. unfold decodable. simpl.
  destruct (decide (p = p0)) as [->|Hne].
  - rewrite lookup_insert_eq. eexists _, _. split; [done|].
    apply decode_encode_ascii, encode_ascii_is_ascii, written_is_ascii; [done|].
    by apply decode_ascii_is_ascii in Hd0.
  - rewrite lookup_insert_ne by done. apply H. by right.
Qed.

End Success.

(** * The SuppressWarnings pass on text without a match at the head *)

Lemma sub_suppress_warnings_match body rest :
  ~ In ")"%char body ->
  sub suppress_warnings_pattern (SW_OPEN ++ body ++ ")"%char :: rest)
  = sub suppress_warnings_pattern rest.
Proof.
  intros Hb.
  assert (match_here suppress_warnings_pattern None (SW_OPEN ++ body ++ ")"%char :: rest)
          = Some (length SW_OPEN + length body + 1)) as H.
  { apply match_suppress_warnings. by exists body, rest. }
  pose proof (sub_match _ _ _ _ H) as E.
  replace (drop (length SW_OPEN + length body + 1) (SW_OPEN ++ body ++ ")"%char :: rest))
    with rest in E; [exact E|].
  rewrite <- Nat.add_assoc, <- drop_drop, drop_app_length.
  replace (length body + 1) with (length (body ++ [")"%char])) by (rewrite length_app; done).
  change (body ++ ")"%char :: rest) with (body ++ [")"%char] ++ rest).
  by rewrite app_assoc, drop_app_length.
Qed.

Lemma sub_suppress_warnings_no_match x s :
  match_here suppress_warnings_pattern None (x :: s) = None ->
  sub suppress_warnings_pattern (x :: s) = x :: sub suppress_warnings_pattern s.
Proof. apply sub_cons_no_match. Qed.

Lemma sub_suppress_warnings_none s :
  findall_count suppress_warnings_pattern s = 0 -> sub suppress_warnings_pattern s = s.
Proof. apply sub_no_match. Qed.

Lemma sub_suppress_warnings_other x s :
  x <> "@"%char ->
  sub suppress_warnings_pattern (x :: s) = x :: sub suppress_warnings_pattern s.
Proof.
  intros Hx. apply sub_suppress_warnings_no_match.
  destruct (match_here _ None (x :: s)) as [n|] eqn:E; [|done].
  apply match_suppress_warnings in E. destruct E as (body & rest & [= -> _] & _). done.
Qed.

Lemma sub_suppress_warnings_no_at pre s :
  ~ In "@"%char pre ->
  sub suppress_warnings_pattern (pre ++ s) = pre ++ sub suppress_warnings_pattern s.
Proof.
  induction pre as [|x pre IH]; intros H; [done|]. simpl.
  rewrite sub_suppress_warnings_other by (intros ->; apply H; by left).
  rewrite IH; [done|]. intros Hin. apply H. by right.
Qed.

Lemma match_suppress_warnings_bare prev rest :
  head rest <> Some "("%char ->
  match_here suppress_warnings_pattern prev (SW_NAME ++ rest) = None.
Proof.
  intros Hr. destruct (match_here _ prev (SW_NAME ++ rest)) as [n|] eqn:E; [|done].
  apply match_suppress_warnings in E. destruct E as (body & rest' & Hs & _).
  change SW_OPEN with (SW_NAME ++ ["("%char]) in Hs. rewrite <- app_assoc in Hs.
  apply app_inv_head in Hs. subst rest. simpl in Hr. done.
Qed.

Lemma sub_suppress_warnings_bare rest :
  head rest <> Some "("%char ->
  sub suppress_warnings_pattern (SW_NAME ++ rest)
  = SW_NAME ++ sub suppress_warnings_pattern rest.
Proof.
  intros Hr. change (SW_NAME ++ rest) with ("@"%char :: T "SuppressWarnings" ++ rest).
  rewrite sub_suppress_warnings_no_match by (apply (match_suppress_warnings_bare None _ Hr)).
  rewrite sub_suppress_warnings_no_at; [done|].
  vm_compute. intuition discriminate.
Qed.

(** A name is not matched inside a longer identifier. *)
Lemma annotation_not_inside_identifier name c rest prev :
  word (T name) -> is_word c = true ->
  match_here (annotation name) prev ("@"%char :: T name ++ c :: rest) = None.
Proof.
  intros Hw Hc. rewrite annotation_ann.
  destruct (match_here _ prev _) as [n|] eqn:E; [|done].
  apply (match_ann _ Hw) in E. destruct E as (rest' & [= Hs] & Hr & _).
  apply app_inv_head in Hs. subst rest'. unfold nw_start in Hr. simpl in Hr.
  rewrite Hc in Hr. done.
Qed.

(** * The SuppressWarnings pass and the text around its spans *)

Lemma every_match_literal_prev c q ok prev prev' s :
  every_match (LITERAL c :: q) ok prev s = every_match (LITERAL c :: q) ok prev' s.
Proof. destruct s; reflexivity. Qed.

Lemma every_match_tail c q ok x s :
  every_match (LITERAL c :: q) ok None (x :: s) = true ->
  every_match (LITERAL c :: q) ok None s = true.
Proof.
  cbn [every_match]. intros H. apply andb_true_iff in H as [_ H].
  by rewrite (every_match_literal_prev c q ok None (Some x)).
Qed.

Lemma every_match_drop c q ok : forall a s,
  every_match (LITERAL c :: q) ok None (a ++ s) = true ->
  every_match (LITERAL c :: q) ok None s = true.
Proof.
  induction a as [|x a IH]; intros s H; [done|].
  apply IH. by apply every_match_tail with x.
Qed.

Lemma every_match_head c q ok s n :
  every_match (LITERAL c :: q) ok None s = true ->
  match_here (LITERAL c :: q) None s = Some n -> ok (drop n s) = true.
Proof.
  intros H E. destruct s as [|x s]; [discriminate|].
  cbn [every_match] in H. rewrite E in H. by apply andb_true_iff in H as [H _].
Qed.

Lemma drop_span body rest :
  drop (length SW_OPEN + length body + 1) (SW_OPEN ++ body ++ ")"%char :: rest) = rest.
Proof.
  rewrite <- Nat.add_assoc, <- drop_drop, drop_app_length.
  replace (length body + 1) with (length (body ++ [")"%char])) by (rewrite length_app; done).
  change (body ++ ")"%char :: rest) with (body ++ [")"%char] ++ rest).
  by rewrite app_assoc, drop_app_length.
Qed.

Lemma first_close (s : text) :
  In ")"%char s -> exists body rest, s = body ++ ")"%char :: rest /\ ~ In ")"%char body.
Proof.
  induction s as [|x s IH]; [done|]. intros H.
  destruct (Ascii.eqb x ")") eqn:E.
  - apply Ascii.eqb_eq in E. subst x. exists [], s. split; [done | intros []].
  - assert (x <> ")"%char) as Hx by (intros ->; by rewrite Ascii.eqb_refl in E).
    destruct H as [H|H]; [done|].
    destruct (IH H) as (body & rest & -> & Hb).
    exists (x :: body), rest. split; [done|]. intros [H'|H']; [by apply Hx | by apply Hb].
Qed.

Lemma findall_zero_no_match c q : forall s,
  (forall pre s', s = pre ++ s' -> match_here (LITERAL c :: q) None s' = None) ->
  findall_count (LITERAL c :: q) s = 0.
Proof.
  induction s as [|x s IH]; intros H; [done|].
  rewrite findall_cons_no_match by (by apply (H [])).
  apply IH. intros pre s' ->. by apply (H (x :: pre)).
Qed.

Section AroundSpans.

(** [ok] tells, from its first character, whether a text may follow a
    removed span; a text starting with [@] may. *)
Variable ok : text -> bool.
Hypothesis ok_head : forall x s s', ok (x :: s) = ok (x :: s').
Hypothesis ok_at : forall s, ok ("@"%char :: s) = true.

Lemma spans_ok_tail x s : spans_ok ok (x :: s) -> spans_ok ok s.
Proof. apply every_match_tail. Qed.

Lemma spans_ok_span body rest :
  ~ In ")"%char body -> spans_ok ok (SW_OPEN ++ body ++ ")"%char :: rest) ->
  ok rest = true /\ spans_ok ok rest.
Proof.
  intros Hb H. split.
  - rewrite <- (drop_span body rest).
    apply (every_match_head _ _ _ _ _ H), match_suppress_warnings. by exists body, rest.
  - unfold spans_ok in *. rewrite app_assoc in H.
    change (")"%char :: rest) with ([")"%char] ++ rest) in H. rewrite app_assoc in H.
    by apply every_match_drop in H.
Qed.

Lemma not_ok_not_at x s : ok (x :: s) = false -> x <> "@"%char.
Proof. intros H ->. by rewrite ok_at in H. Qed.

(** The output of the pass starts as its input may. *)
Lemma sub_suppress_warnings_ok_start : forall s,
  spans_ok ok s -> ok s = true -> ok (sub suppress_warnings_pattern s) = true.
Proof.
  intros s. remember (length s) as k eqn:Hk. revert s Hk.
  induction k as [k IH] using lt_wf_ind. intros s Hk Hs Ho.
  destruct s as [|x s]; [done|].
  destruct (match_here suppress_warnings_pattern None (x :: s)) as [n|] eqn:E.
  - apply match_suppress_warnings in E. destruct E as (body & rest & Hxs & Hb & ->).
    rewrite Hxs in *. rewrite (sub_suppress_warnings_match _ _ Hb).
    destruct (spans_ok_span body rest Hb Hs) as [Hr Hsr].
    apply (IH (length rest)); [|done|done|done].
    subst k. rewrite !length_app. simpl. lia.
  - rewrite (sub_suppress_warnings_no_match _ _ E).
    by rewrite (ok_head x _ s).
Qed.

(** A run of characters that may not follow a span stood in the input
    as it stands in the output. *)
Lemma sub_suppress_warnings_run : forall v s post,
  Forall (fun c => ok [c] = false) v -> spans_ok ok s ->
  sub suppress_warnings_pattern s = v ++ post ->
  exists post', s = v ++ post' /\ sub suppress_warnings_pattern post' = post
                /\ spans_ok ok post'.
Proof.
  induction v as [|c v IH]; intros s post Hv Hs E; [by exists s|].
  inversion Hv as [|? ? Hc Hv']; subst.
  destruct s as [|x s]; [discriminate|].
  destruct (ok (x :: s)) eqn:Ex.
  - pose proof (sub_suppress_warnings_ok_start _ Hs Ex) as H.
    rewrite E in H. simpl in H. rewrite (ok_head c _ []) in H. congruence.
  - rewrite sub_suppress_warnings_other in E by (by apply not_ok_not_at with s).
    injection E as -> E.
    destruct (IH s post Hv' (spans_ok_tail _ _ Hs) E) as (post' & -> & H1 & H2).
    by exists post'.
Qed.

End AroundSpans.

Lemma nw_start_head x s s' : nw_start (x :: s) = nw_start (x :: s').
Proof. reflexivity. Qed.

Lemma detached_head x s s' : detached (x :: s) = detached (x :: s').
Proof. reflexivity. Qed.

(** When every span is followed by a non-word character or the end,
    the pass creates no occurrence of an annotation name. *)
Lemma occurs_sub_suppress_warnings v : forallb is_word v = true -> forall s,
  spans_delimited s = true ->
  occurs v (sub suppress_warnings_pattern s) -> occurs v s.
Proof.
  intros Hv s. remember (length s) as k eqn:Hk. revert s Hk.
  induction k as [k IH] using lt_wf_ind. intros s Hk Hs (pre & rest & E & Hr).
  destruct s as [|x s]; [by destruct pre|].
  destruct (match_here suppress_warnings_pattern None (x :: s)) as [n|] eqn:Em.
  - apply match_suppress_warnings in Em. destruct Em as (body & rest' & Hxs & Hb & ->).
    rewrite Hxs in *. rewrite (sub_suppress_warnings_match _ _ Hb) in E.
    destruct (spans_ok_span nw_start body rest' Hb Hs) as [_ Hsr].
    destruct (IH (length rest')) with (s := rest') as (pre2 & rest2 & -> & H2).
    { subst k. rewrite !length_app. simpl. lia. }
    { done. }
    { done. }
    { by exists pre, rest. }
    exists (SW_OPEN ++ body ++ ")"%char :: pre2), rest2. split; [|done].
    by rewrite <- !app_assoc.
  - rewrite (sub_suppress_warnings_no_match _ _ Em) in E.
    pose proof (spans_ok_tail nw_start _ _ Hs) as Hs'.
    destruct pre as [|y pre]; simpl in E.
    + injection E as -> E.
      destruct (sub_suppress_warnings_run nw_start nw_start_head (fun _ => eq_refl)
                  v s rest) as (post' & -> & Hp & Hsp); [|done|done|].
      { apply Forall_forall. intros c Hc. apply list_elem_of_In in Hc.
        rewrite forallb_forall in Hv. unfold nw_start. simpl. by rewrite (Hv c Hc). }
      exists [], post'. split; [done|].
      destruct post' as [|d post']; [done|].
      destruct (is_word d) eqn:Ed; [|unfold nw_start; simpl; by rewrite Ed].
      rewrite sub_suppress_warnings_other in Hp by (intros ->; discriminate).
      subst rest. unfold nw_start in Hr. simpl in Hr. by rewrite Ed in Hr.
    + injection E as -> E.
      destruct (IH (length s)) with (s := s) as (pre2 & rest2 & -> & H2).
      { subst k. simpl. lia. }
      { done. }
      { done. }
      { by exists pre, rest. }
      by exists (y :: pre2), rest2.
Qed.

(** When every span is followed by a non-word character other than
    [(], or by the end, the pass leaves no match of its own pattern. *)
Lemma sub_suppress_warnings_removes : forall s,
  spans_detached s = true ->
  forall pre s', sub suppress_warnings_pattern s = pre ++ s' ->
                 match_here suppress_warnings_pattern None s' = None.
Proof.
  intros s. remember (length s) as k eqn:Hk. revert s Hk.
  induction k as [k IH] using lt_wf_ind. intros s Hk Hs pre s' E.
  destruct s as [|x s].
  { destruct pre; [|discriminate]. simpl in E. by subst s'. }
  destruct (match_here suppress_warnings_pattern None (x :: s)) as [n|] eqn:Em.
  - apply match_suppress_warnings in Em. destruct Em as (body & rest & Hxs & Hb & ->).
    rewrite Hxs in *. rewrite (sub_suppress_warnings_match _ _ Hb) in E.
    destruct (spans_ok_span detached body rest Hb Hs) as [_ Hsr].
    apply (IH (length rest)) with (s := rest) (pre := pre); [|done|done|done].
    subst k. rewrite !length_app. simpl. lia.
  - rewrite (sub_suppress_warnings_no_match _ _ Em) in E.
    pose proof (spans_ok_tail detached _ _ Hs) as Hs'.
    destruct pre as [|y pre]; simpl in E.
    + subst s'.
      destruct (match_here suppress_warnings_pattern None
                  (x :: sub suppress_warnings_pattern s)) as [m|] eqn:Em'; [|done].
      exfalso. apply match_suppress_warnings in Em'.
      destruct Em' as (body & rest & [= -> E] & Hb & _).
      destruct (sub_suppress_warnings_run detached detached_head (fun _ => eq_refl)
                  (T "SuppressWarnings(") s (body ++ ")"%char :: rest))
        as (post' & -> & Hp & _); [|done|done|].
      { repeat constructor. }
      assert (In ")"%char post') as Hin.
      { destruct (in_dec ascii_dec ")"%char post') as [H|H]; [done|]. exfalso.
        assert (Forall (fun c => c <> ")"%char) (sub suppress_warnings_pattern post')) as HF.
        { apply sub_go_Forall, List.Forall_forall. intros c Hc ->. done. }
        rewrite Hp, List.Forall_forall in HF. apply (HF ")"%char); [|done].
        apply in_or_app. right. by left. }
      destruct (first_close post' Hin) as (body' & rest' & -> & Hb').
      assert (match_here suppress_warnings_pattern None
                (SW_OPEN ++ body' ++ ")"%char :: rest')
              = Some (length SW_OPEN + length body' + 1)) as H
        by (apply match_suppress_warnings; by exists body', rest').
      change (SW_OPEN ++ body' ++ ")"%char :: rest')
        with ("@"%char :: T "SuppressWarnings(" ++ body' ++ ")"%char :: rest') in H.
      congruence.
    + injection E as -> E.
      apply (IH (length s)) with (s := s) (pre := pre); [|done|done|done].
      subst k. simpl. lia.
Qed.

(** * The claims *)

Lemma clean_no_op flag content : clean flag content -> new_content flag content = content.
Proof.
  intros H.
  assert (new_content false content = content) as E.
  { rewrite new_content_false. apply passes_identity; [apply nullability_names_word|].
    intros name Hn. pose proof nullability_names_word as Hw.
    rewrite List.Forall_forall in Hw. apply (findall_ann_zero _ (Hw _ Hn)).
    rewrite <- annotation_ann. apply H. unfold targets. apply in_or_app. left.
    by apply in_map. }
  destruct flag; [|done]. rewrite new_content_true, E.
  apply sub_suppress_warnings_none. apply H. unfold targets. apply in_or_app. right. by left.
Qed.

(** C1 (amended): for every input text, the transformation without
    the SuppressWarnings pass leaves no occurrence of any of the six
    nullability patterns.  With the pass, the same holds of the output
    whenever every [@SuppressWarnings(...)] span of the text handed to
    the pass is followed by a non-word character or the end of the
    text; and the output holds no occurrence of the SuppressWarnings
    pattern either whenever that character is, moreover, not [(]. *)
Theorem C1_patterns_removed content :
  (forall name, In name nullability_names ->
     findall_count (annotation name) (new_content false content) = 0)
  /\ (spans_delimited (new_content false content) = true ->
      forall name, In name nullability_names ->
        findall_count (annotation name) (new_content true content) = 0)
  /\ (spans_detached (new_content false content) = true ->
      findall_count suppress_warnings_pattern (new_content true content) = 0).
Proof.
  pose proof nullability_names_word as Hw. rewrite List.Forall_forall in Hw.
  split; [|split].
  - intros name Hn. rewrite annotation_ann. apply (findall_ann_zero _ (Hw _ Hn)).
    by apply new_content_false_clean.
  - intros Hs name Hn. rewrite annotation_ann. apply (findall_ann_zero _ (Hw _ Hn)).
    rewrite new_content_true. intros H.
    apply (occurs_sub_suppress_warnings _ (proj2 (Hw _ Hn)) _ Hs) in H.
    by apply (new_content_false_clean content name).
  - intros Hs. rewrite new_content_true.
    apply findall_zero_no_match. by apply sub_suppress_warnings_removes.
Qed.

Lemma C1_witness :
  In "Nullable"%string nullability_names
  /\ spans_delimited
       (new_content false
          (T "@SuppressWarnings(x) public @Nullable String f(@NonNull String s) {}")) = true
  /\ spans_detached
       (new_content false
          (T "@SuppressWarnings(x) public @Nullable String f(@NonNull String s) {}")) = true
  /\ findall_count (annotation "Nullable")
       (new_content false
          (T "@SuppressWarnings(x) public @Nullable String f(@NonNull String s) {}")) = 0
  /\ findall_count (annotation "Nullable")
       (new_content true
          (T "@SuppressWarnings(x) public @Nullable String f(@NonNull String s) {}")) = 0
  /\ findall_count suppress_warnings_pattern
       (new_content true
          (T "@SuppressWarnings(x) public @Nullable String f(@NonNull String s) {}")) = 0.
Proof.
  assert (In "Nullable"%string nullability_names) as H by (left; reflexivity).
  assert (spans_delimited
            (new_content false
               (T "@SuppressWarnings(x) public @Nullable String f(@NonNull String s) {}"))
          = true) as Hd by reflexivity.
  assert (spans_detached
            (new_content false
               (T "@SuppressWarnings(x) public @Nullable String f(@NonNull String s) {}"))
          = true) as Hc by reflexivity.
  destruct (C1_patterns_removed
              (T "@SuppressWarnings(x) public @Nullable String f(@NonNull String s) {}"))
    as (H1 & H2 & H3).
  split; [exact H|]. split; [exact Hd|]. split; [exact Hc|].
  split; [exact (H1 _ H)|]. split; [exact (H2 Hd _ H) | exact (H3 Hc)].
Defined.

(** C1 fails as stated: with the flag set, [@Null@SuppressWarnings()able]
    holds no occurrence of the Nullable pattern and its output holds
    one; a run over a file with one [@Nullable] reports the count 0;
    and the outputs for [@Suppress@SuppressWarnings()Warnings(x)] and
    [@SuppressWarnings@SuppressWarnings(a)(b)] still hold an occurrence
    of the SuppressWarnings pattern. *)
Lemma C1_counterexample :
  (findall_count nullable_pattern spliced = 0
   /\ new_content true spliced = T "@Nullable"
   /\ findall_count nullable_pattern (new_content true spliced) = 1)
  /\ (findall_count nullable_pattern (T "@Nullable x") = 1
      /\ store w_nullable !! T "src/A.java" = Some (B "@Nullable x")
      /\ total_nullable_count
           (globals (final_world (main [LF] (T "src") false w_nullable))) = 0)
  /\ (findall_count suppress_warnings_pattern (T "@Suppress@SuppressWarnings()Warnings(x)") = 1
      /\ new_content true (T "@Suppress@SuppressWarnings()Warnings(x)")
         = T "@SuppressWarnings(x)"
      /\ findall_count suppress_warnings_pattern
           (new_content true (T "@Suppress@SuppressWarnings()Warnings(x)")) = 1
      /\ new_content true (T "@SuppressWarnings@SuppressWarnings(a)(b)")
         = T "@SuppressWarnings(b)").
Proof. vm_compute. auto 15. Qed.

Lemma main_raised linesep directory flag w e w' :
  process_directory linesep directory flag w = Raised e w' ->
  main linesep directory flag w = Raised e w'.
Proof. intros H. unfold main, bind. by rewrite H. Qed.

Lemma progress_not_header done : ~ In summary_header (map progress done).
Proof. intros H. apply in_map_iff in H as (q & H & _). discriminate. Qed.

(** C2: a selected file with a byte outside the 7-bit range makes
    [remove_annotations] raise the decoding error with the world as it
    was, so nothing is written; the run then stops with an exception,
    the file still holds its bytes, and everything printed is progress
    lines, never the summary. *)
Theorem C2_decoding_error linesep flag w p b :
  store w !! p = Some b ->
  Exists (fun x => 128 <= Byte.to_nat x) b ->
  remove_annotations linesep p flag w = Raised UnicodeDecodeError w
  /\ forall directory, In p (selected (entries w directory)) ->
       exists e w' wl done,
         main linesep directory flag w = Raised e w'
         /\ store w' !! p = Some b
         /\ write_log w' = write_log w ++ wl /\ ~ In p wl
         /\ stdout w' = stdout w ++ map progress done
         /\ ~ In summary_header (map progress done).
Proof.
  intros Hb Hx. apply decode_ascii_None in Hx. split.
  - by apply remove_annotations_decode_error with b.
  - intros directory Hin.
    destruct (for_each_decode_error linesep flag _ w p b Hin Hb Hx)
      as (e & w' & wl & done & H1 & H2 & H3 & H4 & H5).
    exists e, w', wl, done. split_and!; try done.
    + apply main_raised. by rewrite process_directory_selected.
    + apply progress_not_header.
Qed.

Lemma C2_witness :
  store w_latin1 !! T "src/A.java" = Some [x41; xe9]%byte
  /\ Exists (fun x => 128 <= Byte.to_nat x) [x41; xe9]%byte
  /\ remove_annotations [LF] (T "src/A.java") true w_latin1
     = Raised UnicodeDecodeError w_latin1
  /\ exists e w' wl done,
       main [LF] (T "src") true w_latin1 = Raised e w'
       /\ store w' !! T "src/A.java" = Some [x41; xe9]%byte
       /\ write_log w' = write_log w_latin1 ++ wl /\ ~ In (T "src/A.java") wl
       /\ stdout w' = stdout w_latin1 ++ map progress done
       /\ ~ In summary_header (map progress done).
Proof.
  assert (store w_latin1 !! T "src/A.java" = Some [x41; xe9]%byte) as H1 by reflexivity.
  assert (Exists (fun x => 128 <= Byte.to_nat x) [x41; xe9]%byte) as H2.
  { apply Exists_cons_tl, Exists_cons_hd. vm_compute. lia. }
  destruct (C2_decoding_error [LF] true w_latin1 (T "src/A.java") _ H1 H2) as [H3 H4].
  split; [exact H1|]. split; [exact H2|]. split; [exact H3|].
  apply (H4 (T "src")). vm_compute. left. reflexivity.
Defined.

(** C3: on [@SuppressWarnings("unchecked") void f() {}] the text is
    unchanged without the flag and becomes [ void f() {}] with it; the
    summary has the SuppressWarnings line only with the flag, and the
    count it prints is 0 although one match was removed. *)
Theorem C3_suppress_warnings_example :
  new_content false suppress_unchecked = suppress_unchecked
  /\ new_content true suppress_unchecked = T " void f() {}"
  /\ findall_count suppress_warnings_pattern suppress_unchecked = 1
  /\ (let w' := final_world (main [LF] (T "src") true w_suppress) in
      store w' !! T "src/A.java" = Some (B " void f() {}")
      /\ total_suppress_warnings_count (globals w') = 0
      /\ last (stdout w') = Some (T "  @SuppressWarnings: 0"))
  /\ (let w' := final_world (main [LF] (T "src") false w_suppress) in
      store w' !! T "src/A.java" = Some (bytes suppress_unchecked)
      /\ last (stdout w') = Some (T "  @MonotonicNonNull: 0")).
Proof. vm_compute. auto 10. Qed.



(** C5: the four spellings are matched once each by their own pattern
    and by no other, and [NonNull] is not matched inside [NonNullable];
    but a run over a file holding the four leaves every counter at 0. *)
Theorem C5_four_kinds_example :
  map (fun name => findall_count (annotation name) four_kinds) nullability_names
  = [0; 1; 1; 1; 1; 0]
  /\ findall_count nonnull_pattern (T "@NonNullable x") = 0
  /\ new_content false four_kinds = T "   "
  /\ (let w' := final_world (main [LF] (T "src") false w_four) in
      store w' !! T "src/A.java" = Some (B "   ")
      /\ globals w' = zero_counters
      /\ stdout w' = [T "Processed src/A.java"; LF :: T "Total occurrences removed:";
                      T "  @Nullable: 0"; T "  @NonNull: 0"; T "  @Nonnull: 0";
                      T "  @Notnull: 0"; T "  @NotNull: 0"; T "  @MonotonicNonNull: 0"]).
Proof. vm_compute. auto 10. Qed.







Lemma encode_ascii_Some s b : encode_ascii s = Some b -> b = bytes s.
Proof. unfold encode_ascii. destruct (forallb _ s); [|discriminate]. by intros [= <-]. Qed.




(** C9: whenever the file at the path exists and decodes,
    [remove_annotations] opens it for writing and stores the
    transformed content, whether or not anything was removed; a walk
    over decodable files returns having opened every selected path. *)
Theorem C9_rewritten_unconditionally linesep flag w p b content :
  is_ascii linesep ->
  store w !! p = Some b -> decode_ascii b = Some content ->
  (exists w', remove_annotations linesep p flag w = Returned tt w'
              /\ write_log w' = write_log w ++ [p]
              /\ store w' !! p = Some (bytes (written linesep flag content)))
  /\ forall directory,
       (forall q, In q (selected (entries w directory)) -> decodable w q) ->
       exists w', process_directory linesep directory flag w = Returned tt w'
                  /\ write_log w' = write_log w ++ selected (entries w directory)
                  /\ stdout w' = stdout w ++ map progress (selected (entries w directory)).
Proof.
  intros Hl Hb Hd. split.
  - eexists. split; [by apply remove_annotations_ok with b|].
    simpl. by rewrite lookup_insert_eq.
  - intros directory Hall.
    destruct (for_each_returns linesep Hl flag _ w Hall) as [w' Hw'].
    exists w'. rewrite process_directory_selected. split; [exact Hw'|].
    destruct (for_each_trace linesep flag (selected (entries w directory)) w)
      as (wl & done & H1 & H2 & _ & _ & _ & _ & _ & H8).
    destruct (H8 tt w' Hw') as [-> ->]. rewrite Hw' in H1, H2. done.
Qed.

Lemma C9_witness :
  is_ascii [LF]
  /\ store w_plain !! T "src/A.java" = Some (B "class A {}")
  /\ decode_ascii (B "class A {}") = Some (T "class A {}")
  /\ written [LF] true (T "class A {}") = T "class A {}"
  /\ exists w', remove_annotations [LF] (T "src/A.java") true w_plain = Returned tt w'
                /\ write_log w' = write_log w_plain ++ [T "src/A.java"]
                /\ store w' !! T "src/A.java" = Some (bytes (written [LF] true (T "class A {}"))).
Proof.
  assert (is_ascii [LF]) as H1 by (repeat constructor; vm_compute; lia).
  assert (store w_plain !! T "src/A.java" = Some (B "class A {}")) as H2 by reflexivity.
  assert (decode_ascii (B "class A {}") = Some (T "class A {}")) as H3 by reflexivity.
  split; [exact H1|]. split; [exact H2|]. split; [exact H3|]. split; [reflexivity|].
  exact (proj1 (C9_rewritten_unconditionally [LF] true w_plain (T "src/A.java") _ _ H1 H2 H3)).
Defined.

(** C10 (amended): the SuppressWarnings pattern matches nowhere at an
    [@SuppressWarnings] that is not directly followed by [(]; when the
    pass reaches one, it keeps it and goes on with the text behind. *)
Theorem C10_bare_suppress_warnings_kept rest :
  head rest <> Some "("%char ->
  (forall prev, match_here suppress_warnings_pattern prev (SW_NAME ++ rest) = None)
  /\ sub suppress_warnings_pattern (SW_NAME ++ rest)
     = SW_NAME ++ sub suppress_warnings_pattern rest
  /\ (forall pre, ~ In "@"%char pre ->
        sub suppress_warnings_pattern (pre ++ SW_NAME ++ rest)
        = pre ++ SW_NAME ++ sub suppress_warnings_pattern rest).
Proof.
  intros Hr. split; [intros prev; by apply match_suppress_warnings_bare|].
  split; [by apply sub_suppress_warnings_bare|].
  intros pre Hpre. rewrite sub_suppress_warnings_no_at by done.
  by rewrite sub_suppress_warnings_bare.
Qed.

Lemma C10_witness :
  head (T " void f() {}") <> Some "("%char
  /\ new_content true (T "@SuppressWarnings void f() {}") = T "@SuppressWarnings void f() {}"
  /\ sub suppress_warnings_pattern (SW_NAME ++ T " void f() {}")
     = SW_NAME ++ sub suppress_warnings_pattern (T " void f() {}").
Proof.
  assert (head (T " void f() {}") <> Some "("%char) as H by discriminate.
  split; [exact H|]. split; [reflexivity|].
  exact (proj1 (proj2 (C10_bare_suppress_warnings_kept (T " void f() {}") H))).
Defined.

(** C10 fails as stated: with the flag set, the inner
    [@SuppressWarnings] of [@SuppressWarnings(@SuppressWarnings)] is
    followed by [)], not by [(], and the transformation removes it with
    the span around it; and in [@SuppressWarnings@Nullable(x)] the name
    is followed by [@], yet nothing of it is left once the Nullable
    pass has run. *)
Lemma C10_counterexample :
  (nested_bare = SW_OPEN ++ SW_NAME ++ T ")"
   /\ head (T ")") <> Some "("%char
   /\ new_content true nested_bare = [])
  /\ (head (T "@Nullable(x)") <> Some "("%char
      /\ new_content true (SW_NAME ++ T "@Nullable(x)") = []).
Proof.
  split; (split; [reflexivity || discriminate|]); [split; [discriminate|]|]; reflexivity.
Qed.

(** * Further properties of the substitutions *)

(** The scan only deletes. *)
Lemma sub_go_sublist p : forall s prev k, sub_go p prev s k `sublist_of` s.
Proof.
  induction s as [|x s IH]; intros prev k; simpl; [done|].
  destruct k; [|by apply sublist_cons].
  destruct (match_here p prev (x :: s)) as [[|n]|];
    (by apply sublist_skip) || by apply sublist_cons.
Qed.

Lemma sub_sublist p s : sub p s `sublist_of` s.
Proof. apply sub_go_sublist. Qed.

Lemma new_content_sublist flag content : new_content flag content `sublist_of` content.
Proof.
  unfold new_content.
  destruct flag; repeat (etrans; [apply sub_sublist|]); done.
Qed.

Lemma sublist_not_In (c : ascii) (l k : text) : l `sublist_of` k -> ~ In c k -> ~ In c l.
Proof.
  intros Hl Hk Hin. apply Hk. apply list_elem_of_In.
  eapply elem_of_sublist; [|exact Hl]. by apply list_elem_of_In.
Qed.

(** A substitution returns its subject exactly when it finds no match. *)
Lemma sub_unchanged c q : forall s,
  sub (LITERAL c :: q) s = s <-> findall_count (LITERAL c :: q) s = 0.
Proof.
  intros s. split; [|apply sub_no_match].
  induction s as [|x s IH]; [done|]. intros H.
  destruct (match_here (LITERAL c :: q) None (x :: s)) as [n|] eqn:E.
  - exfalso. pose proof (sub_match _ _ _ _ E) as Hs.
    destruct (match_here_literal_pos _ _ _ _ _ E) as (m & s' & -> & _).
    apply (f_equal length) in H. rewrite Hs in H.
    pose proof (sublist_length _ _ (sub_sublist (LITERAL c :: q) (drop (S m) (x :: s)))) as Hl.
    rewrite H, length_drop in Hl. simpl in Hl. lia.
  - rewrite (findall_cons_no_match _ _ _ _ E). apply IH.
    rewrite (sub_cons_no_match _ _ _ _ E) in H. by injection H.
Qed.

(** A prefix without [@] stands before every match. *)
Lemma sub_at_free_prefix q pre s :
  ~ In "@"%char pre ->
  sub (LITERAL "@"%char :: q) (pre ++ s) = pre ++ sub (LITERAL "@"%char :: q) s.
Proof.
  induction pre as [|x pre IH]; intros H; [done|]. simpl.
  rewrite sub_cons_no_match.
  - rewrite IH; [done|]. intros Hin. apply H. by right.
  - destruct (match_here _ None (x :: pre ++ s)) as [n|] eqn:E; [|done].
    apply match_here_literal_pos in E as (m & s' & _ & [= -> _]).
    exfalso. apply H. by left.
Qed.

Lemma findall_at_free_prefix q pre s :
  ~ In "@"%char pre ->
  findall_count (LITERAL "@"%char :: q) (pre ++ s) = findall_count (LITERAL "@"%char :: q) s.
Proof.
  induction pre as [|x pre IH]; intros H; [done|]. simpl.
  rewrite findall_cons_no_match.
  - apply IH. intros Hin. apply H. by right.
  - destruct (match_here _ None (x :: pre ++ s)) as [n|] eqn:E; [|done].
    apply match_here_literal_pos in E as (m & s' & _ & [= -> _]).
    exfalso. apply H. by left.
Qed.

Lemma new_content_at_free_prefix flag pre s :
  ~ In "@"%char pre -> new_content flag (pre ++ s) = pre ++ new_content flag s.
Proof.
  intros H. unfold new_content, nullable_pattern, nonnull_pattern, nonnull_strict_pattern,
    notnull_pattern, not_null_strict_pattern, monotonic_nonnull_pattern.
  rewrite !annotation_ann. unfold ann.
  rewrite !(sub_at_free_prefix _ pre) by done.
  destruct flag; [|done].
  change suppress_warnings_pattern with
    (LITERAL "@"%char :: AT_BOUNDARY :: lits "SuppressWarnings"
       ++ [AT_BOUNDARY; LITERAL "("%char; MAX_REPEAT_NOT_LITERAL ")"%char; LITERAL ")"%char]).
  by rewrite sub_at_free_prefix.
Qed.

Lemma word_no_at w : forallb is_word w = true -> ~ In "@"%char w.
Proof.
  intros Hw Hin. rewrite forallb_forall in Hw. by apply Hw in Hin.
Qed.

Section TwoNames.

Variables p q : text.
Hypothesis p_word : word p.
Hypothesis q_word : word q.

(** Two names that occur at the same position are the same name. *)
Lemma same_position rest rest' :
  nw_start rest = true -> nw_start rest' = true ->
  p ++ rest = q ++ rest' -> p = q.
Proof.
  intros Hr Hr' H. destruct p_word as [_ Hp], q_word as [_ Hq].
  assert (forall a b k r r', forallb is_word a = true -> a = b ++ k -> r' = k ++ r ->
            nw_start r' = true -> a = b) as Haux.
  { intros a b k r r' Ha -> -> Hn. destruct k as [|c k]; [by rewrite app_nil_r|].
    rewrite forallb_app in Ha. apply andb_true_iff in Ha as [_ Ha]. simpl in Ha.
    apply andb_true_iff in Ha as [Hc _]. unfold nw_start in Hn. simpl in Hn.
    rewrite Hc in Hn. done. }
  apply app_eq_inv in H as [(k & H1 & H2)|(k & H1 & H2)].
  - by apply (Haux p q k rest rest').
  - symmetry. by apply (Haux q p k rest' rest).
Qed.

Lemma match_other_name rest :
  p <> q -> nw_start rest = true ->
  match_here (ann p) None ("@"%char :: q ++ rest) = None.
Proof.
  intros Hne Hr. destruct (match_here _ None _) as [n|] eqn:E; [|done].
  apply (match_ann p p_word) in E. destruct E as (rest' & [= Hs] & Hr' & _).
  exfalso. apply Hne. symmetry in Hs. by apply (same_position rest' rest).
Qed.

End TwoNames.

Section Accounting.

Variable q : text.
Hypothesis q_word : word q.

(** Every match of [@\bq\b] accounts for [1 + length q] characters. *)
Lemma sub_ann_length : forall s,
  length (sub (ann q) s) + findall_count (ann q) s * S (length q) = length s.
Proof.
  intros s. remember (length s) as k eqn:Hk. revert s Hk.
  induction k as [k IH] using lt_wf_ind. intros s Hk.
  destruct s as [|x s]; [by subst|].
  destruct (match_here (ann q) None (x :: s)) as [n|] eqn:E.
  - apply (match_ann q q_word) in E. destruct E as (rest & [= -> ->] & Hr & ->).
    rewrite (sub_ann_match q q_word _ Hr), (findall_ann_match q q_word _ Hr).
    assert (length rest < k) as Hlt by (subst k; simpl; rewrite length_app; lia).
    specialize (IH _ Hlt rest eq_refl).
    subst k. simpl. rewrite length_app. lia.
  - rewrite (sub_ann_no_match q _ _ E), (findall_ann_no_match q _ _ E).
    assert (length s < k) as Hlt by (subst k; simpl; lia).
    specialize (IH _ Hlt s eq_refl). subst k. simpl. lia.
Qed.

Lemma sub_ann_word_run v rest :
  forallb is_word v = true -> sub (ann q) (v ++ rest) = v ++ sub (ann q) rest.
Proof. intros Hv. apply sub_at_free_prefix. by apply word_no_at. Qed.

Lemma findall_ann_word_run v rest :
  forallb is_word v = true -> findall_count (ann q) (v ++ rest) = findall_count (ann q) rest.
Proof. intros Hv. apply findall_at_free_prefix. by apply word_no_at. Qed.

(** A match of another pattern at the head of the output of the pass
    for [q] was a match at the head of its input. *)
Lemma match_after_sub p x s n :
  word p ->
  match_here (ann q) None (x :: s) = None ->
  match_here (ann p) None (x :: sub (ann q) s) = Some n ->
  match_here (ann p) None (x :: s) = Some n.
Proof.
  intros Hp Hq E. apply (match_ann p Hp) in E. destruct E as (rest & [= -> Hs] & Hr & ->).
  destruct Hp as [Hne Hw].
  destruct (sub_ann_word_prefix q q_word p s rest Hw Hr Hs) as (post' & -> & Hp').
  apply (match_ann p (conj Hne Hw)). by exists post'.
Qed.

End Accounting.

Section Commute.

Variables p q : text.
Hypothesis p_word : word p.
Hypothesis q_word : word q.

(** The pass for [q] neither removes nor creates a match of another
    pattern. *)
Lemma findall_sub_other : p <> q -> forall s,
  findall_count (ann p) (sub (ann q) s) = findall_count (ann p) s.
Proof.
  intros Hne s. remember (length s) as k eqn:Hk. revert s Hk.
  induction k as [k IH] using lt_wf_ind. intros s Hk.
  destruct s as [|x s]; [done|].
  destruct p_word as [_ Hpw], q_word as [_ Hqw].
  destruct (match_here (ann q) None (x :: s)) as [n|] eqn:E.
  - apply (match_ann q q_word) in E. destruct E as (rest & [= -> ->] & Hr & ->).
    rewrite (sub_ann_match q q_word _ Hr).
    rewrite (findall_ann_no_match p _ _ (match_other_name p q p_word q_word rest Hne Hr)).
    rewrite (findall_ann_word_run p q rest Hqw).
    apply (IH (length rest)); [|done]. subst k. simpl. rewrite length_app. lia.
  - rewrite (sub_ann_no_match q _ _ E).
    assert (length s < k) as Hlt by (subst k; simpl; lia).
    destruct (match_here (ann p) None (x :: s)) as [m|] eqn:Ep.
    + apply (match_ann p p_word) in Ep. destruct Ep as (rest & [= -> ->] & Hr & ->).
      rewrite (sub_ann_word_run q p rest Hpw).
      rewrite (findall_ann_match p p_word _ (sub_ann_nw_start q q_word _ Hr)).
      rewrite (findall_ann_match p p_word _ Hr). f_equal.
      apply (IH (length rest)); [|done]. subst k. simpl. rewrite length_app. lia.
    + rewrite (findall_ann_no_match p _ _ Ep).
      rewrite findall_ann_no_match; [by apply (IH (length s))|].
      destruct (match_here (ann p) None (x :: sub (ann q) s)) as [m|] eqn:Ep'; [|done].
      apply (match_after_sub q q_word p _ _ _ p_word E) in Ep'. congruence.
Qed.

(** Two passes can be swapped. *)
Lemma sub_ann_comm : forall s,
  sub (ann p) (sub (ann q) s) = sub (ann q) (sub (ann p) s).
Proof.
  destruct (decide (p = q)) as [->|Hne]; [done|].
  intros s. remember (length s) as k eqn:Hk. revert s Hk.
  induction k as [k IH] using lt_wf_ind. intros s Hk.
  destruct s as [|x s]; [done|].
  destruct p_word as [_ Hpw], q_word as [_ Hqw].
  assert (length s < k) as Hlt by (subst k; simpl; lia).
  destruct (match_here (ann q) None (x :: s)) as [n|] eqn:E.
  - apply (match_ann q q_word) in E. destruct E as (rest & [= -> ->] & Hr & ->).
    rewrite (sub_ann_match q q_word _ Hr).
    rewrite (sub_ann_no_match p _ _ (match_other_name p q p_word q_word rest Hne Hr)).
    rewrite (sub_ann_word_run p q rest Hqw).
    rewrite (sub_ann_match q q_word _ (sub_ann_nw_start p p_word _ Hr)).
    apply (IH (length rest)); [|done]. subst k. simpl. rewrite length_app. lia.
  - rewrite (sub_ann_no_match q _ _ E).
    destruct (match_here (ann p) None (x :: s)) as [m|] eqn:Ep.
    + apply (match_ann p p_word) in Ep. destruct Ep as (rest & [= -> ->] & Hr & ->).
      rewrite (sub_ann_word_run q p rest Hpw).
      rewrite (sub_ann_match p p_word _ (sub_ann_nw_start q q_word _ Hr)).
      rewrite (sub_ann_match p p_word _ Hr).
      apply (IH (length rest)); [|done]. subst k. simpl. rewrite length_app. lia.
    + rewrite (sub_ann_no_match p _ _ Ep).
      rewrite (sub_ann_no_match p x (sub (ann q) s)).
      * rewrite (sub_ann_no_match q x (sub (ann p) s)).
        -- f_equal. by apply (IH (length s)).
        -- destruct (match_here (ann q) None (x :: sub (ann p) s)) as [m|] eqn:E'; [|done].
           apply (match_after_sub p p_word q _ _ _ q_word Ep) in E'. congruence.
      * destruct (match_here (ann p) None (x :: sub (ann q) s)) as [m|] eqn:E'; [|done].
        apply (match_after_sub q q_word p _ _ _ p_word E) in E'. congruence.
Qed.

End Commute.

(** * The passes together *)

Lemma T_inj a b : T a = T b -> a = b.
Proof.
  intros H. apply (f_equal string_of_list_ascii) in H.
  unfold T in H. by rewrite !string_of_list_ascii_of_string in H.
Qed.

Lemma pass_comm a b s : word_name a -> word_name b -> pass (pass s a) b = pass (pass s b) a.
Proof.
  intros Ha Hb. unfold pass. rewrite !annotation_ann. by apply sub_ann_comm.
Qed.

Lemma passes_permutation names names' :
  Permutation names names' -> Forall word_name names ->
  forall s, foldl pass s names = foldl pass s names'.
Proof.
  induction 1 as [|x l l' _ IH|x y l|l l' l'' H1 IH1 H2 IH2]; intros Hw s.
  - done.
  - simpl. apply IH. by inversion Hw.
  - simpl. inversion Hw as [|? ? Hy Hw']. inversion Hw' as [|? ? Hx _]. subst.
    by rewrite (pass_comm y x).
  - rewrite IH1 by done. apply IH2. by rewrite <- H1.
Qed.

Lemma pass_findall_other a b s :
  word_name a -> word_name b -> a <> b ->
  findall_count (annotation a) (pass s b) = findall_count (annotation a) s.
Proof.
  intros Ha Hb Hne. unfold pass. rewrite !annotation_ann.
  apply findall_sub_other; [done|done|]. intros H. by apply Hne, T_inj.
Qed.

Lemma passes_findall_other a names :
  word_name a -> Forall word_name names -> ~ In a names ->
  forall s, findall_count (annotation a) (foldl pass s names) = findall_count (annotation a) s.
Proof.
  intros Ha Hw. induction Hw as [|b names Hb _ IH]; intros Hin s; [done|]. simpl.
  rewrite IH by (intros H; apply Hin; by right).
  apply pass_findall_other; [done|done|]. intros ->. apply Hin. by left.
Qed.

Lemma pass_length name s :
  word_name name ->
  length (pass s name) + findall_count (annotation name) s * S (length (T name)) = length s.
Proof. intros H. unfold pass. rewrite annotation_ann. by apply sub_ann_length. Qed.

Lemma passes_length names : Forall word_name names -> List.NoDup names ->
  forall s,
    length (foldl pass s names)
    + list_sum (map (fun name => findall_count (annotation name) s * S (length (T name))) names)
    = length s.
Proof.
  intros Hw. induction Hw as [|a names Ha Hw IH]; intros Hd s; simpl; [lia|].
  inversion Hd as [|? ? Hin Hd']; subst.
  specialize (IH Hd' (pass s a)).
  pose proof (pass_length a s Ha) as Hl.
  assert (map (fun name => findall_count (annotation name) (pass s a) * S (length (T name))) names
          = map (fun name => findall_count (annotation name) s * S (length (T name))) names) as E.
  { apply map_ext_in. intros b Hb. f_equal.
    rewrite List.Forall_forall in Hw.
    apply pass_findall_other; [by apply Hw|done|]. intros ->. done. }
  rewrite E in IH. lia.
Qed.

Lemma nullability_names_NoDup : List.NoDup nullability_names.
Proof. repeat constructor; simpl; intuition discriminate. Qed.

Lemma targets_at_headed flag : Forall at_headed (targets flag).
Proof.
  unfold targets. apply Forall_app. split.
  - apply Forall_forall. intros p Hp. apply list_elem_of_In, in_map_iff in Hp as (n & <- & _).
    rewrite annotation_ann. by eexists.
  - destruct flag; repeat constructor. by eexists.
Qed.

Lemma new_content_targets flag content :
  new_content flag content = foldl (fun s p => sub p s) content (targets flag).
Proof. by destruct flag. Qed.

Lemma sub_length_unchanged c q s :
  length (sub (LITERAL c :: q) s) = length s -> findall_count (LITERAL c :: q) s = 0.
Proof.
  revert s. induction s as [|x s IH]; [done|]. intros H.
  destruct (match_here (LITERAL c :: q) None (x :: s)) as [n|] eqn:E.
  - exfalso. pose proof (sub_match _ _ _ _ E) as Hs.
    destruct (match_here_literal_pos _ _ _ _ _ E) as (m & s' & -> & _).
    rewrite Hs in H.
    pose proof (sublist_length _ _ (sub_sublist (LITERAL c :: q) (drop (S m) (x :: s)))) as Hl.
    rewrite H, length_drop in Hl. simpl in Hl. lia.
  - rewrite (findall_cons_no_match _ _ _ _ E). apply IH.
    rewrite (sub_cons_no_match _ _ _ _ E) in H. simpl in H. lia.
Qed.

Lemma foldl_sub_length ps : forall s, length (foldl (fun s p => sub p s) s ps) <= length s.
Proof.
  induction ps as [|p ps IH]; intros s; simpl; [done|].
  etrans; [apply IH|]. apply sublist_length, sub_sublist.
Qed.

Lemma foldl_sub_unchanged ps : Forall at_headed ps -> forall s,
  foldl (fun s p => sub p s) s ps = s <-> forall p, In p ps -> findall_count p s = 0.
Proof.
  intros Hh. induction Hh as [|p ps [q ->] _ IH]; intros s; simpl; [done|].
  split.
  - intros H.
    assert (findall_count (LITERAL "@"%char :: q) s = 0) as H0.
    { apply sub_length_unchanged.
      pose proof (foldl_sub_length ps (sub (LITERAL "@"%char :: q) s)) as H1.
      pose proof (sublist_length _ _ (sub_sublist (LITERAL "@"%char :: q) s)) as H2.
      rewrite H in H1. lia. }
    rewrite (sub_no_match _ _ _ H0) in H.
    intros p [<-|Hp]; [done|]. by apply IH.
  - intros H. rewrite sub_no_match by (apply H; by left).
    apply IH. intros p Hp. apply H. by right.
Qed.

(** The SuppressWarnings pattern needs a [)]. *)
Lemma sub_suppress_warnings_no_close : forall s,
  ~ In ")"%char s -> sub suppress_warnings_pattern s = s.
Proof.
  induction s as [|x s IH]; intros H; [done|].
  rewrite sub_suppress_warnings_no_match.
  - rewrite IH; [done|]. intros Hin. apply H. by right.
  - destruct (match_here _ None (x :: s)) as [n|] eqn:E; [|done].
    apply match_suppress_warnings in E. destruct E as (body & rest & Hs & _).
    exfalso. apply H. rewrite Hs. apply in_or_app. right. apply in_or_app. right. by left.
Qed.

(** A name followed by a word character is not matched by its own
    pattern, nor by the pattern of a name it is not a proper prefix of. *)
Lemma match_longer_identifier p name c rest :
  word p -> forallb is_word name = true -> is_word c = true ->
  (name `prefix_of` p -> name = p) ->
  match_here (ann p) None ("@"%char :: name ++ c :: rest) = None.
Proof.
  intros Hp Hn Hc Hpre. destruct (match_here _ None _) as [n|] eqn:E; [|done].
  apply (match_ann p Hp) in E. destruct E as (rest' & [= Hs] & Hr & _). exfalso.
  change (name ++ c :: rest) with (name ++ [c] ++ rest) in Hs. rewrite app_assoc in Hs.
  apply app_eq_inv in Hs as [(k & H1 & H2)|(k & H1 & H2)].
  - destruct k as [|d k].
    + rewrite app_nil_r in H1. subst rest'. simpl in Hr.
      assert (name = p) as <- by (apply Hpre; exists [c]; by rewrite H1).
      apply (f_equal length) in H1. rewrite length_app in H1. simpl in H1. lia.
    + assert (is_word d = true) as Hd.
      { assert (forallb is_word (name ++ [c]) = true) as Hnc
          by (rewrite forallb_app; simpl; by rewrite Hn, Hc).
        rewrite H1, forallb_app in Hnc. apply andb_true_iff in Hnc as [_ Hk].
        simpl in Hk. by apply andb_true_iff in Hk as [Hd _]. }
      subst rest'. unfold nw_start in Hr. simpl in Hr. by rewrite Hd in Hr.
  - assert (name = p) as <-.
    { apply Hpre. exists ([c] ++ k). by rewrite app_assoc. }
    apply (f_equal length) in H1. rewrite !length_app in H1. simpl in H1. lia.
Qed.

Lemma nullability_names_prefix_free a b :
  In a nullability_names -> In b nullability_names -> T a `prefix_of` T b -> T a = T b.
Proof.
  intros Ha Hb H. apply (bool_decide_eq_true_2 _) in H. revert H.
  unfold nullability_names in Ha, Hb. simpl in Ha, Hb.
  repeat (destruct Ha as [<-|Ha]; [|]); try done;
    repeat (destruct Hb as [<-|Hb]; [|]); try done;
    intros H; (reflexivity || (vm_compute in H; discriminate)).
Qed.

(** * Further properties of the run *)

Lemma main_returned linesep directory flag w u w1 :
  process_directory linesep directory flag w = Returned u w1 ->
  main linesep directory flag w
  = Returned tt (World (store w1) (listing w1) (write_log w1)
                       (stdout w1 ++ summary flag (globals w1)) (globals w1)).
Proof.
  intros H. unfold main, bind, print, get_globals, put_line, ret. rewrite H.
  destruct flag; simpl; rewrite <- !app_assoc; reflexivity.
Qed.

Lemma process_directory_globals linesep directory flag w :
  globals (final_world (process_directory linesep directory flag w)) = globals w.
Proof.
  rewrite process_directory_selected.
  by destruct (for_each_trace linesep flag (selected (entries w directory)) w)
    as (wl & done & _ & _ & _ & H & _).
Qed.

(** The loop up to the first file that does not decode. *)
Lemma for_each_fail_fast linesep flag ps1 p ps2 w b :
  is_ascii linesep ->
  (forall q, In q ps1 -> decodable w q) ->
  store w !! p = Some b -> decode_ascii b = None ->
  exists w',
    for_each (ps1 ++ p :: ps2) (process_file linesep flag) w = Raised UnicodeDecodeError w'
    /\ write_log w' = write_log w ++ ps1
    /\ stdout w' = stdout w ++ map progress ps1
    /\ (forall q, ~ In q ps1 -> store w' !! q = store w !! q).
Proof.
  intros Hl Hd Hb Hn.
  destruct (for_each_returns linesep Hl flag ps1 w Hd) as [w1 Hw1].
  destruct (for_each_trace linesep flag ps1 w)
    as (wl & done & H1 & H2 & _ & _ & H5 & _ & _ & H8).
  destruct (H8 tt w1 Hw1) as [-> ->]. rewrite Hw1 in H1, H2, H5. simpl in H1, H2, H5.
  assert (~ In p ps1) as Hp.
  { intros Hin. destruct (Hd p Hin) as (b' & c & Hb' & Hc). congruence. }
  exists w1. rewrite for_each_app. unfold bind at 1. rewrite Hw1.
  rewrite for_each_process_cons.
  rewrite (remove_annotations_decode_error linesep flag p w1 b); [done| |done].
  by rewrite H5.
Qed.

Lemma selected_nil es :
  (forall root ds files file,
     In (root, ds, files) es -> In file files -> endswith file (T ".java") = false) ->
  selected es = [].
Proof.
  induction es as [|[[root ds] files] es IH]; intros H; [done|].
  change (selected ((root, ds, files) :: es))
    with (map (join root) (List.filter (fun file => endswith file (T ".java")) files)
          ++ selected es).
  rewrite IH by (intros r d f x Hin; apply (H r d f x); by right).
  rewrite app_nil_r.
  assert (List.filter (fun file => endswith file (T ".java")) files = []) as ->; [|done].
  assert (forall file, In file files -> endswith file (T ".java") = false) as Hf
    by (intros file; apply (H root ds files); by left).
  clear -Hf. induction files as [|f files IHf]; [done|]. cbn [List.filter].
  rewrite (Hf f) by (by left). apply IHf. intros x Hx. apply Hf. by right.
Qed.

(** Newlines under [os.linesep = '\n']. *)
Lemma translate_newlines_LF s : translate_newlines [LF] s = s.
Proof.
  unfold translate_newlines. induction s as [|c s IH]; [done|]. simpl.
  destruct (Ascii.eqb c LF) eqn:E; [apply Ascii.eqb_eq in E; subst|]; by rewrite IH.
Qed.

Lemma universal_newlines_no_CR : forall s, ~ In CR (universal_newlines s).
Proof.
  intros s. remember (length s) as k eqn:Hk. revert s Hk.
  induction k as [k IH] using lt_wf_ind. intros s Hk.
  destruct s as [|c s]; [by intros []|]. cbn [universal_newlines].
  destruct (Ascii.eqb c CR) eqn:E.
  - destruct s as [|d s]; [intros [H|[]]; discriminate|].
    destruct (Ascii.eqb d LF); (intros [H|H]; [discriminate|]); revert H.
    + apply (IH (length s)); [subst k; simpl; lia|done].
    + apply (IH (length (d :: s))); [subst k; simpl; lia|done].
  - intros [H|H].
    + subst c. by rewrite Ascii.eqb_refl in E.
    + revert H. apply (IH (length s)); [subst k; simpl; lia|done].
Qed.

Lemma universal_newlines_id : forall s, ~ In CR s -> universal_newlines s = s.
Proof.
  induction s as [|c s IH]; intros H; [done|]. cbn [universal_newlines].
  destruct (Ascii.eqb c CR) eqn:E.
  - apply Ascii.eqb_eq in E. subst c. exfalso. apply H. by left.
  - rewrite IH; [done|]. intros Hin. apply H. by right.
Qed.

Lemma bytes_decode b content : decode_ascii b = Some content -> bytes content = b.
Proof.
  unfold decode_ascii. destruct (forallb _ b); [|discriminate]. intros [= <-].
  unfold bytes. rewrite map_map. rewrite <- (map_id b) at 2. apply map_ext.
  apply byte_of_ascii_of_byte.
Qed.

Lemma decode_bytes s : is_ascii s -> decode_ascii (bytes s) = Some s.
Proof. intros H. by apply decode_encode_ascii, encode_ascii_is_ascii. Qed.

Lemma bytes_no_CR s : ~ In CR s -> ~ In x0d%byte (bytes s).
Proof.
  intros H Hin. apply in_map_iff in Hin as (c & Hc & Hin). apply H.
  apply (f_equal ascii_of_byte) in Hc. rewrite ascii_of_byte_of_ascii in Hc. by subst c.
Qed.

Lemma written_LF_no_CR flag content : ~ In CR (written [LF] flag content).
Proof.
  unfold written. rewrite translate_newlines_LF.
  eapply sublist_not_In; [apply new_content_sublist | apply universal_newlines_no_CR].
Qed.

Lemma pass_longer_identifier q name c rest :
  In q nullability_names -> In name nullability_names -> is_word c = true ->
  sub (annotation q) ("@"%char :: T name ++ c :: rest)
  = "@"%char :: T name ++ c :: sub (annotation q) rest.
Proof.
  intros Hq Hn Hc. pose proof nullability_names_word as Hw.
  rewrite List.Forall_forall in Hw.
  pose proof (Hw q Hq) as Hqw. destruct (Hw name Hn) as [_ Hnw].
  rewrite annotation_ann. rewrite sub_ann_no_match.
  - f_equal. change (T name ++ c :: rest) with (T name ++ [c] ++ rest).
    rewrite app_assoc, (sub_ann_word_run (T q)), <- app_assoc; [done|].
    rewrite forallb_app. simpl. by rewrite Hnw, Hc.
  - apply match_longer_identifier; try done.
    intros H. by apply nullability_names_prefix_free.
Qed.

Lemma suppress_warnings_longer_identifier name c rest :
  In name nullability_names -> is_word c = true ->
  sub suppress_warnings_pattern ("@"%char :: T name ++ c :: rest)
  = "@"%char :: T name ++ c :: sub suppress_warnings_pattern rest.
Proof.
  intros Hn Hc. pose proof nullability_names_word as Hw.
  rewrite List.Forall_forall in Hw. destruct (Hw name Hn) as [_ Hnw].
  rewrite sub_suppress_warnings_no_match.
  - f_equal. change (T name ++ c :: rest) with (T name ++ [c] ++ rest).
    rewrite app_assoc, sub_suppress_warnings_no_at, <- app_assoc; [done|].
    apply word_no_at. rewrite forallb_app. simpl. by rewrite Hnw, Hc.
  - destruct (match_here _ None _) as [n|] eqn:E; [|done].
    apply match_suppress_warnings in E. destruct E as (body & r & Hs & _).
    exfalso. unfold nullability_names in Hn. simpl in Hn.
    repeat (destruct Hn as [<-|Hn]; [vm_compute in Hs; discriminate|]). done.
Qed.

(** X1: the transformation only deletes characters: its output is a
    subsequence of its input, so never longer. *)
Theorem X1_only_deletes flag content :
  new_content flag content `sublist_of` content
  /\ length (new_content flag content) <= length content.
Proof.
  split; [apply new_content_sublist|]. apply sublist_length, new_content_sublist.
Qed.

(** X2: without the SuppressWarnings pass, the output is shorter than
    the input by exactly [1 + length name] characters for each match of
    each of the six patterns in the input. *)
Theorem X2_characters_removed content :
  length (new_content false content)
  + list_sum (map (fun name => findall_count (annotation name) content * S (length (T name)))
                  nullability_names)
  = length content.
Proof.
  rewrite new_content_false.
  apply passes_length; [apply nullability_names_word | apply nullability_names_NoDup].
Qed.

(** X3: when its turn comes, each of the six passes finds exactly the
    matches its pattern has in the original content: the earlier
    passes neither remove nor create any. *)
Theorem X3_pass_sees_original_matches names1 name names2 content :
  nullability_names = names1 ++ name :: names2 ->
  findall_count (annotation name) (foldl pass content names1)
  = findall_count (annotation name) content.
Proof.
  intros E. pose proof nullability_names_word as Hw. pose proof nullability_names_NoDup as Hd.
  rewrite E in Hw, Hd. apply Forall_app in Hw as [Hw1 Hw2].
  apply passes_findall_other; [by inversion Hw2 | done |].
  apply NoDup_remove_2 in Hd. intros Hin. apply Hd. apply in_or_app. by left.
Qed.

Lemma X3_witness :
  findall_count (annotation "Nonnull")
    (foldl pass (T "@Nonnull a @Nullable b @NonNull c @Nonnull") ["Nullable"; "NonNull"]%string)
  = findall_count (annotation "Nonnull") (T "@Nonnull a @Nullable b @NonNull c @Nonnull").
Proof.
  exact (X3_pass_sees_original_matches ["Nullable"; "NonNull"]%string "Nonnull"
           ["Notnull"; "NotNull"; "MonotonicNonNull"]%string _ eq_refl).
Defined.

(** X4: the six unconditional passes can run in any order: every
    permutation of them computes the same text. *)
Theorem X4_pass_order_irrelevant names content :
  Permutation names nullability_names ->
  foldl pass content names = new_content false content.
Proof.
  intros H. rewrite new_content_false. symmetry.
  apply passes_permutation; [by symmetry | apply nullability_names_word].
Qed.

Lemma X4_witness :
  foldl pass (T "@NotNull a @MonotonicNonNull b @Nullable c") (rev nullability_names)
  = new_content false (T "@NotNull a @MonotonicNonNull b @Nullable c").
Proof.
  apply X4_pass_order_irrelevant. symmetry. apply Permutation_rev.
Defined.

(** X5: text that stands before the first [@] is copied as it is. *)
Theorem X5_text_before_first_at_untouched flag pre s :
  ~ In "@"%char pre -> new_content flag (pre ++ s) = pre ++ new_content flag s.
Proof. apply new_content_at_free_prefix. Qed.

Lemma X5_witness :
  ~ In "@"%char (T "public ")
  /\ new_content true (T "public " ++ T "@Nullable String x")
     = T "public " ++ new_content true (T "@Nullable String x").
Proof.
  assert (~ In "@"%char (T "public ")) as H by (vm_compute; intuition discriminate).
  split; [exact H | exact (X5_text_before_first_at_untouched true _ _ H)].
Defined.

(** X6: the output equals the input exactly when no targeted pattern
    matches anywhere in the input. *)
Theorem X6_unchanged_iff_clean flag content :
  new_content flag content = content <-> clean flag content.
Proof.
  rewrite new_content_targets. apply foldl_sub_unchanged, targets_at_headed.
Qed.

Lemma X6_witness :
  new_content true (T "int f(int x) { return x; }") = T "int f(int x) { return x; }"
  /\ clean true (T "int f(int x) { return x; }").
Proof.
  assert (new_content true (T "int f(int x) { return x; }")
          = T "int f(int x) { return x; }") as H by reflexivity.
  split; [exact H | exact (proj1 (X6_unchanged_iff_clean true _) H)].
Defined.

(** X7: one of the six names followed directly by a word character is
    part of a longer identifier and is kept, with that character,
    whatever the flag. *)
Theorem X7_longer_identifier_kept flag name c rest :
  In name nullability_names -> is_word c = true ->
  new_content flag ("@"%char :: T name ++ c :: rest)
  = "@"%char :: T name ++ c :: new_content flag rest.
Proof.
  intros Hn Hc. unfold new_content, nullable_pattern, nonnull_pattern,
    nonnull_strict_pattern, notnull_pattern, not_null_strict_pattern,
    monotonic_nonnull_pattern.
  rewrite (pass_longer_identifier "Nullable") by (simpl; auto 10).
  rewrite (pass_longer_identifier "NonNull") by (simpl; auto 10).
  rewrite (pass_longer_identifier "Nonnull") by (simpl; auto 10).
  rewrite (pass_longer_identifier "Notnull") by (simpl; auto 10).
  rewrite (pass_longer_identifier "NotNull") by (simpl; auto 10).
  rewrite (pass_longer_identifier "MonotonicNonNull") by (simpl; auto 10).
  destruct flag; [|done]. by apply suppress_warnings_longer_identifier.
Qed.

Lemma X7_witness :
  In "NonNull"%string nullability_names /\ is_word "a"%char = true
  /\ new_content true ("@"%char :: T "NonNull" ++ "a"%char :: T "ble f(@NonNull x)")
     = "@"%char :: T "NonNull" ++ "a"%char :: new_content true (T "ble f(@NonNull x)").
Proof.
  assert (In "NonNull"%string nullability_names) as H1 by (right; left; reflexivity).
  assert (is_word "a"%char = true) as H2 by reflexivity.
  split; [exact H1|]. split; [exact H2|].
  exact (X7_longer_identifier_kept true "NonNull" "a"%char _ H1 H2).
Defined.

(** X8: on a text without any [)] the flag makes no difference: an
    argument list that is never closed is not removed. *)
Theorem X8_unclosed_suppress_warnings_kept content :
  ~ In ")"%char content -> new_content true content = new_content false content.
Proof.
  intros H. rewrite new_content_true. apply sub_suppress_warnings_no_close.
  eapply sublist_not_In; [apply new_content_sublist | exact H].
Qed.

Lemma X8_witness :
  ~ In ")"%char (T "@SuppressWarnings(unchecked void f")
  /\ new_content true (T "@SuppressWarnings(unchecked void f")
     = new_content false (T "@SuppressWarnings(unchecked void f").
Proof.
  assert (~ In ")"%char (T "@SuppressWarnings(unchecked void f")) as H
    by (vm_compute; intuition discriminate).
  split; [exact H | exact (X8_unclosed_suppress_warnings_kept _ H)].
Defined.

Lemma LF_is_ascii : is_ascii [LF].
Proof. repeat constructor; vm_compute; lia. Qed.

(** X9: whatever decodable bytes were read, the text handed to
    [file.write] is ASCII when [os.linesep] is: encoding it under
    [us-ascii] never fails, and the bytes stored decode to that text. *)
Theorem X9_written_text_encodes linesep flag b content :
  is_ascii linesep -> decode_ascii b = Some content ->
  encode_ascii (written linesep flag content) = Some (bytes (written linesep flag content))
  /\ decode_ascii (bytes (written linesep flag content)) = Some (written linesep flag content).
Proof.
  intros Hl Hd.
  assert (is_ascii (written linesep flag content)) as H
    by (apply written_is_ascii; [done | by apply decode_ascii_is_ascii in Hd]).
  split; [by apply encode_ascii_is_ascii | by apply decode_bytes].
Qed.

Lemma X9_witness :
  is_ascii [CR; LF]
  /\ decode_ascii (B "@Nullable x") = Some (T "@Nullable x")
  /\ encode_ascii (written [CR; LF] true (T "@Nullable x"))
     = Some (bytes (written [CR; LF] true (T "@Nullable x")))
  /\ decode_ascii (bytes (written [CR; LF] true (T "@Nullable x")))
     = Some (written [CR; LF] true (T "@Nullable x")).
Proof.
  assert (is_ascii [CR; LF]) as H1 by (repeat constructor; vm_compute; lia).
  assert (decode_ascii (B "@Nullable x") = Some (T "@Nullable x")) as H2 by reflexivity.
  split; [exact H1|]. split; [exact H2|].
  exact (X9_written_text_encodes [CR; LF] true _ _ H1 H2).
Defined.

(** X10: the run stops at the first selected file that does not decode:
    the files before it have been rewritten and reported, that file and
    every path not before it keep their content, and no summary follows. *)
Theorem X10_fail_fast linesep directory flag w ps1 p ps2 b :
  is_ascii linesep ->
  selected (entries w directory) = ps1 ++ p :: ps2 ->
  (forall q, In q ps1 -> decodable w q) ->
  store w !! p = Some b -> decode_ascii b = None ->
  exists w',
    main linesep directory flag w = Raised UnicodeDecodeError w'
    /\ write_log w' = write_log w ++ ps1
    /\ stdout w' = stdout w ++ map progress ps1
    /\ (forall q, ~ In q ps1 -> store w' !! q = store w !! q).
Proof.
  intros Hl Hs Hd Hb Hn.
  destruct (for_each_fail_fast linesep flag ps1 p ps2 w b Hl Hd Hb Hn)
    as (w' & H1 & H2 & H3 & H4).
  exists w'. split; [|done].
  apply main_raised. by rewrite process_directory_selected, Hs.
Qed.

Lemma X10_witness :
  exists w',
    main [LF] (T "src") false w_three = Raised UnicodeDecodeError w'
    /\ write_log w' = write_log w_three ++ [T "src/A.java"]
    /\ stdout w' = stdout w_three ++ map progress [T "src/A.java"]
    /\ (forall q, ~ In q [T "src/A.java"] -> store w' !! q = store w_three !! q).
Proof.
  apply (X10_fail_fast [LF] (T "src") false w_three [T "src/A.java"] (T "src/B.java")
           [T "src/C.java"] [x41; xe9]%byte).
  - repeat constructor; vm_compute; lia.
  - reflexivity.
  - intros q [<-|[]]. exists (B "@Nullable x"), (T "@Nullable x"). split; reflexivity.
  - reflexivity.
  - reflexivity.
Defined.

(** X11: when the walk completes, [__main__] returns after printing the
    header and the six count lines, and the SuppressWarnings line only
    under the flag; the counts printed are the values the counters had
    before the walk, and nothing else changes. *)
Theorem X11_summary_after_walk linesep directory flag w u w1 :
  process_directory linesep directory flag w = Returned u w1 ->
  exists w2,
    main linesep directory flag w = Returned tt w2
    /\ stdout w2 = stdout w1 ++ summary flag (globals w)
    /\ globals w2 = globals w
    /\ store w2 = store w1 /\ write_log w2 = write_log w1.
Proof.
  intros H. pose proof (process_directory_globals linesep directory flag w) as Hg.
  rewrite H in Hg. simpl in Hg.
  eexists. split; [by apply main_returned with u|]. simpl. by rewrite Hg.
Qed.

Lemma X11_witness :
  exists w1 w2,
    process_directory [LF] (T "src") true w_nullable = Returned tt w1
    /\ main [LF] (T "src") true w_nullable = Returned tt w2
    /\ stdout w2 = stdout w1 ++ summary true zero_counters
    /\ globals w2 = zero_counters.
Proof.
  eexists.
  assert (process_directory [LF] (T "src") true w_nullable = Returned tt _) as H
    by (vm_compute; reflexivity).
  destruct (X11_summary_after_walk [LF] (T "src") true w_nullable tt _ H)
    as (w2 & H1 & H2 & H3 & _).
  exists w2. split; [exact H|]. split; [exact H1|]. split; [exact H2 | exact H3].
Defined.

(** X12: when no file under the directory has a name ending with
    [.java] (in particular when there is no such directory), the walk
    returns with the world as it was. *)
Theorem X12_nothing_selected linesep directory flag w :
  (forall root ds files file,
     In (root, ds, files) (entries w directory) -> In file files ->
     endswith file (T ".java") = false) ->
  process_directory linesep directory flag w = Returned tt w.
Proof.
  intros H. by rewrite process_directory_selected, (selected_nil _ H).
Qed.

Lemma X12_witness :
  process_directory [LF] (T "src") true w_notes = Returned tt w_notes.
Proof.
  apply X12_nothing_selected. intros root ds files file H1 H2.
  vm_compute in H1. destruct H1 as [H1|[]]. injection H1 as <- <- <-.
  destruct H2 as [<-|[]]. reflexivity.
Defined.

(** X13: with ['\n'] as line separator, the bytes a successful call
    stores never contain a carriage return: [\r\n] and lone [\r] in the
    file are replaced by [\n]. *)
Theorem X13_no_carriage_return_written p flag w u w' :
  remove_annotations [LF] p flag w = Returned u w' ->
  exists b', store w' !! p = Some b' /\ ~ In x0d%byte b'.
Proof.
  intros H. apply remove_annotations_returned in H.
  destruct H as (b & content & b' & _ & _ & He & Hs & _).
  exists b'. rewrite Hs, lookup_insert_eq. split; [done|].
  apply encode_ascii_Some in He. subst b'.
  apply bytes_no_CR, (written_LF_no_CR flag content).
Qed.

Lemma X13_witness :
  store w_crlf !! T "src/A.java" = Some [x61; x0d; x0a; x62]%byte
  /\ exists w' b',
       remove_annotations [LF] (T "src/A.java") false w_crlf = Returned tt w'
       /\ store w' !! T "src/A.java" = Some b' /\ ~ In x0d%byte b'.
Proof.
  split; [reflexivity|]. eexists.
  assert (remove_annotations [LF] (T "src/A.java") false w_crlf = Returned tt _) as H
    by (vm_compute; reflexivity).
  destruct (X13_no_carriage_return_written _ _ _ _ _ H) as (b' & H1 & H2).
  exists b'. split; [exact H|]. split; [exact H1 | exact H2].
Defined.

(** X14: with ['\n'] as line separator, a file without carriage return
    and without any targeted annotation is written back with exactly
    the bytes it had: the store is unchanged, though the file was
    opened for writing. *)
Theorem X14_clean_file_keeps_bytes p flag w b content :
  store w !! p = Some b -> decode_ascii b = Some content ->
  ~ In CR content -> clean flag content ->
  exists w', remove_annotations [LF] p flag w = Returned tt w'
             /\ store w' = store w
             /\ write_log w' = write_log w ++ [p].
Proof.
  intros Hb Hd Hcr Hc. eexists.
  split; [apply (remove_annotations_ok [LF] LF_is_ascii flag p w b content Hb Hd)|].
  simpl. split; [|done].
  unfold written. rewrite translate_newlines_LF, universal_newlines_id by done.
  rewrite (clean_no_op flag content Hc).
  fold (bytes content). rewrite (bytes_decode b content Hd). by apply insert_id.
Qed.

Lemma X14_witness :
  exists w', remove_annotations [LF] (T "src/A.java") true w_plain = Returned tt w'
             /\ store w' = store w_plain
             /\ write_log w' = write_log w_plain ++ [T "src/A.java"].
Proof.
  apply (X14_clean_file_keeps_bytes (T "src/A.java") true w_plain
           (B "class A {}") (T "class A {}")).
  - reflexivity.
  - reflexivity.
  - vm_compute. intuition discriminate.
  - intros pt Hp. unfold targets, nullability_names in Hp. cbn [map app] in Hp.
    repeat (destruct Hp as [<-|Hp]; [reflexivity|]). destruct Hp.
Defined.

(** X15: with ['\n'] as line separator and without the flag, calling
    [remove_annotations] again on a file it has rewritten succeeds and
    stores the same bytes. *)
Theorem X15_second_call_keeps_bytes p w u w1 :
  remove_annotations [LF] p false w = Returned u w1 ->
  exists w2, remove_annotations [LF] p false w1 = Returned tt w2
             /\ store w2 = store w1.
Proof.
  intros H. apply remove_annotations_returned in H.
  destruct H as (b & content & b' & _ & Hd & He & Hs & _).
  apply encode_ascii_Some in He. subst b'.
  fold (written [LF] false content) in Hs.
  assert (is_ascii (written [LF] false content)) as Ha.
  { apply written_is_ascii; [apply LF_is_ascii|]. by apply decode_ascii_is_ascii in Hd. }
  assert (store w1 !! p = Some (bytes (written [LF] false content))) as Hb1
    by (by rewrite Hs, lookup_insert_eq).
  eexists. split;
    [apply (remove_annotations_ok [LF] LF_is_ascii false p w1 _ _ Hb1 (decode_bytes _ Ha))|].
  assert (written [LF] false (written [LF] false content) = written [LF] false content) as E.
  { set (t := written [LF] false content). unfold written.
    rewrite translate_newlines_LF, (universal_newlines_id t) by apply written_LF_no_CR.
    subst t. unfold written. rewrite translate_newlines_LF.
    apply new_content_false_idempotent. }
  simpl. apply insert_id. rewrite Hb1. f_equal.
  fold (bytes (written [LF] false (written [LF] false content))). by rewrite E.
Qed.

Lemma X15_witness :
  exists w1 w2,
    remove_annotations [LF] (T "src/A.java") false w_nullable = Returned tt w1
    /\ remove_annotations [LF] (T "src/A.java") false w1 = Returned tt w2
    /\ store w2 = store w1.
Proof.
  eexists.
  assert (remove_annotations [LF] (T "src/A.java") false w_nullable = Returned tt _) as H
    by (vm_compute; reflexivity).
  destruct (X15_second_call_keeps_bytes _ _ _ _ H) as (w2 & H1 & H2).
  exists w2. split; [exact H|]. split; [exact H1 | exact H2].
Defined.
